(** * kube-endpoint-discovery: endpoint discovery for clustered services

    A shallow embedding of [kube-endpoint-discovery.go] and the properties
    of its hostname extractor, FQDN builder, index deriver, output
    formatter and membership poller.

    Go strings are byte sequences: they are modelled by [string], one
    [ascii] per byte.  Go's [int] is the 64-bit one. *)

From Stdlib Require Import ZArith NArith List String Ascii Bool Lia.
From Stdlib Require Import DecimalString DecimalPos.
Import ListNotations.

Local Open Scope string_scope.
Local Open Scope Z_scope.

(** ** Results of code that can panic *)

(** A Go call either returns or panics; a panic that nobody recovers
    terminates the whole program. *)
Inductive outcome (A : Type) : Type :=
| Ret (a : A)
| Panic (msg : string).
Arguments Ret {A} a.
Arguments Panic {A} msg.

(** Indexing a slice, [s[i]]: out of range is a run-time panic. *)
Definition index {A : Type} (s : list A) (i : nat) : outcome A :=
  match nth_error s i with
  | Some a => Ret a
  | None => Panic "runtime error: index out of range"
  end.

(** ** Bytes *)

(** [lo <= c && c <= hi] on byte values. *)
Definition byte_in (lo hi : N) (c : ascii) : bool :=
  (lo <=? N_of_ascii c)%N && (N_of_ascii c <=? hi)%N.

(** ['0' <= c && c <= '9'], which is also the class [\d] of Go's regexp
    syntax (ASCII digits only). *)
Definition is_digit (c : ascii) : bool := byte_in 0x30 0x39 c.

(** The class [\w] of Go's regexp syntax: digits, [A-Z], [a-z] and the
    underscore. *)
Definition is_word (c : ascii) : bool :=
  is_digit c || byte_in 0x41 0x5A c || byte_in 0x61 0x7A c || Ascii.eqb c "_".

(** The line feed that Go writes for the escape [\n]. *)
Definition nl : string := String (ascii_of_N 10) "".

Definition digit_val (c : ascii) : Z := Z.of_N (N_of_ascii c) - 48.

(** ** Go's [strings] package *)

Module strings.

(** [strings.Join(elems, sep)]. *)
Fixpoint Join (elems : list string) (sep : string) : string :=
  match elems with
  | [] => ""
  | [e] => e
  | e :: rest => e ++ sep ++ Join rest sep
  end.

End strings.

(** ** Go's [strconv] package

    [Atoi] and what it calls, in base 10 and for a 64-bit [int], after
    [strconv/atoi.go]. *)

Module strconv.

Inductive NumError : Type := ErrSyntax | ErrRange.

Definition maxUint64 : Z := 18446744073709551615.

(** The digit loop of [ParseUint(s, 10, 64)], [n] being the value read
    so far. *)
Fixpoint parse_digits (s : string) (n : Z) : Z * option NumError :=
  match s with
  | EmptyString => (n, None)
  | String c s' =>
      if is_digit c then
        if maxUint64 / 10 + 1 <=? n then (maxUint64, Some ErrRange)
        else
          let n1 := n * 10 + digit_val c in
          if maxUint64 <? n1 then (maxUint64, Some ErrRange)
          else parse_digits s' n1
      else (0, Some ErrSyntax)
  end.

Definition ParseUint (s : string) : Z * option NumError :=
  match s with
  | EmptyString => (0, Some ErrSyntax)
  | _ => parse_digits s 0
  end.

(** [ParseInt(s, 10, 0)] with a 64-bit [int]. *)
Definition ParseInt (s : string) : Z * option NumError :=
  match s with
  | EmptyString => (0, Some ErrSyntax)
  | String c0 s' =>
      let neg := Ascii.eqb c0 "-" in
      let body := if Ascii.eqb c0 "+" || neg then s' else s in
      let (un, err) := ParseUint body in
      match err with
      | Some ErrSyntax => (0, err)
      | _ =>
          let cutoff := 2 ^ 63 in
          if negb neg && (cutoff <=? un) then (cutoff - 1, Some ErrRange)
          else if neg && (cutoff <? un) then (- cutoff, Some ErrRange)
          else (if neg then - un else un, None)
      end
  end.

(** The fast path of [Atoi], taken for 1 to 18 bytes. *)
Fixpoint atoi_digits (s : string) (n : Z) : Z * option NumError :=
  match s with
  | EmptyString => (n, None)
  | String c s' =>
      if is_digit c then atoi_digits s' (n * 10 + digit_val c)
      else (0, Some ErrSyntax)
  end.

(** [strconv.Atoi(s)]: the value and the error ([None] is [nil]). *)
Definition Atoi (s : string) : Z * option NumError :=
  let sLen := String.length s in
  if (0 <? sLen)%nat && (sLen <? 19)%nat then
    match s with
    | EmptyString => (0, Some ErrSyntax)
    | String c0 s' =>
        let signed := Ascii.eqb c0 "-" || Ascii.eqb c0 "+" in
        let body := if signed then s' else s in
        if signed && (String.length body <? 1)%nat then (0, Some ErrSyntax)
        else
          let (n, err) := atoi_digits body 0 in
          match err with
          | Some _ => (0, err)
          | None => (if Ascii.eqb c0 "-" then - n else n, None)
          end
    end
  else ParseInt s.

(** [strconv.Itoa(i)]: the decimal representation. *)
Definition Itoa (i : Z) : string := NilZero.string_of_int (Z.to_int i).

End strconv.

(** ** Go's [regexp] package, for the one pattern of the program *)

Module regexp.

(** The tail of the pattern, a dash and group 2: the text of group 2. *)
Definition match_tail (s : string) : option string :=
  match s with
  | String c (String d _) =>
      if Ascii.eqb c "-" && is_digit d then Some (String d "") else None
  | _ => None
  end.

(** [\w*] and the tail at the head of [s], as a backtracking matcher
    runs them:
    the star takes a byte when it can and gives it back when the rest
    fails.  The result is the text of [\w*] and that of group 2. *)
Fixpoint match_word_star (s : string) : option (string * string) :=
  match s with
  | String c s' =>
      if is_word c then
        match match_word_star s' with
        | Some (w, d) => Some (String c w, d)
        | None => option_map (pair "") (match_tail s)
        end
      else option_map (pair "") (match_tail s)
  | EmptyString => option_map (pair "") (match_tail s)
  end.

(** One match attempt of the whole pattern (group 1 is [^\w*], group 2
    is [\d], a dash between them) at a position; [bot] tells whether the
    position is the beginning of the text, where alone [^] holds.  The
    result is the slice [whole match; group 1; group 2]. *)
Definition match_here (bot : bool) (s : string) : option (list string) :=
  if bot then
    match match_word_star s with
    | Some (w, d) => Some [w ++ "-" ++ d; w; d]
    | None => None
    end
  else None.

(** The leftmost match: positions are tried from left to right. *)
Fixpoint search (bot : bool) (s : string) : option (list string) :=
  match match_here bot s with
  | Some m => Some m
  | None =>
      match s with
      | String _ s' => search false s'
      | EmptyString => None
      end
  end.

(** [re.FindStringSubmatch(s)] for the compiled pattern of
    [getNodeIndex]: the match and its groups, or the nil slice. *)
Definition FindStringSubmatch (s : string) : list string :=
  match search true s with
  | Some m => m
  | None => []
  end.

End regexp.

(** ** Go's [fmt] package: [Printf] called with a format and no operand

    The verb parser of [doPrintf] in [fmt/print.go], for an empty list of
    operands: no verb finds an operand, so every verb but the doubled
    percent sign writes an error marker.  The format is read from left
    to right; where the source moves an index [i] over [format], the
    functions below take and return the bytes from [i] on. *)

Module fmt.

Definition percentBangString : string := "%!".
Definition missingString : string := "(MISSING)".
Definition badIndexString : string := "(BADINDEX)".
Definition noVerbString : string := "%!(NOVERB)".
Definition badWidthString : string := "%!(BADWIDTH)".
Definition badPrecString : string := "%!(BADPREC)".

(** The encoding of [utf8.RuneError], U+FFFD. *)
Definition runeErrorBytes : string :=
  String (ascii_of_N 0xEF) (String (ascii_of_N 0xBF) (String (ascii_of_N 0xBD) "")).

Definition tooLarge (x : Z) : bool := (1000000 <? x) || (x <? -1000000).

(** [parsenum(s, start, end)] on the bytes [s[start:end]]: the number,
    whether there is one, and the bytes from [newi] on.  A number that
    is too large gives [newi = end]: nothing is left. *)
Fixpoint parsenum_from (s : string) (num : Z) (isnum : bool)
  : Z * bool * string :=
  match s with
  | String c s' =>
      if is_digit c then
        if tooLarge num then (0, false, "")
        else parsenum_from s' (num * 10 + digit_val c) true
      else (num, isnum, s)
  | EmptyString => (num, isnum, s)
  end.

Definition parsenum (s : string) : Z * bool * string :=
  parsenum_from s 0 false.

(** The bytes before the first closing bracket and those after it. *)
Fixpoint until_bracket (s : string) : option (string * string) :=
  match s with
  | EmptyString => None
  | String c s' =>
      if Ascii.eqb c "]" then Some ("", s')
      else
        match until_bracket s' with
        | Some (inner, rest) => Some (String c inner, rest)
        | None => None
        end
  end.

(** [parseArgNumber(format)], [format] starting at an opening bracket:
    the index, whether it is one, and the bytes from [wid] on. *)
Definition parseArgNumber (format : string) : Z * bool * string :=
  match format with
  | EmptyString => (0, false, "")
  | String _ after =>
      if (String.length format <? 3)%nat then (0, false, after)
      else
        match until_bracket after with
        | Some (inner, rest) =>
            let '(width, ok, unread) := parsenum inner in
            if negb ok || negb (String.eqb unread "") then (0, false, rest)
            else (width - 1, true, rest)
        | None => (0, false, after)
        end
  end.

(** [i < end && format[i] == c], the format being read from [i] on. *)
Definition at_byte (c : ascii) (format : string) : bool :=
  match format with
  | String a _ => Ascii.eqb a c
  | EmptyString => false
  end.

(** [i++]. *)
Definition next (format : string) : string :=
  match format with
  | String _ rest => rest
  | EmptyString => ""
  end.

(** [p.argNumber(argNum, format, i, numArgs)] with [numArgs = 0]: no
    index is in range, so a bracket always clears [goodArgNum].  The
    result is the bytes from [newi] on, [found] and [goodArgNum]. *)
Definition argNumber (format : string) (goodArgNum : bool)
  : string * bool * bool :=
  if at_byte "[" format then
    let '(_, ok, rest) := parseArgNumber format in
    (rest, ok, false)
  else (format, false, goodArgNum).

(** The flags [#0+- ] after the percent sign. *)
Fixpoint skip_flags (s : string) : string :=
  match s with
  | String c s' =>
      if Ascii.eqb c "#" || Ascii.eqb c "0" || Ascii.eqb c "+"
         || Ascii.eqb c "-" || Ascii.eqb c " "
      then skip_flags s' else s
  | EmptyString => s
  end.

(** The size and the range of the second byte that the first byte of a
    UTF-8 sequence of two bytes or more asks for ([first] and
    [acceptRanges] of [unicode/utf8]). *)
Definition utf8_first (c : ascii) : option (nat * N * N) :=
  let b := N_of_ascii c in
  if byte_in 0xC2 0xDF c then Some (2%nat, 0x80, 0xBF)%N
  else if (b =? 0xE0)%N then Some (3%nat, 0xA0, 0xBF)%N
  else if byte_in 0xE1 0xEC c then Some (3%nat, 0x80, 0xBF)%N
  else if (b =? 0xED)%N then Some (3%nat, 0x80, 0x9F)%N
  else if byte_in 0xEE 0xEF c then Some (3%nat, 0x80, 0xBF)%N
  else if (b =? 0xF0)%N then Some (4%nat, 0x90, 0xBF)%N
  else if byte_in 0xF1 0xF3 c then Some (4%nat, 0x80, 0xBF)%N
  else if (b =? 0xF4)%N then Some (4%nat, 0x80, 0x8F)%N
  else None.

(** The verb at the head of [s] as [writeRune] writes it back, and the
    bytes after it: an ASCII byte, a well-formed UTF-8 sequence (written
    back as it is), or one byte read as [utf8.RuneError]. *)
Definition decodeVerb (s : string) : string * string :=
  match s with
  | EmptyString => ("", "")
  | String c0 s1 =>
      if (N_of_ascii c0 <? 0x80)%N then (String c0 "", s1)
      else
        match utf8_first c0, s1 with
        | Some (sz, lo, hi), String c1 s2 =>
            if byte_in lo hi c1 then
              match sz, s2 with
              | 2%nat, _ => (String c0 (String c1 ""), s2)
              | 3%nat, String c2 s3 =>
                  if byte_in 0x80 0xBF c2
                  then (String c0 (String c1 (String c2 "")), s3)
                  else (runeErrorBytes, s1)
              | 4%nat, String c2 (String c3 s4) =>
                  if byte_in 0x80 0xBF c2 && byte_in 0x80 0xBF c3
                  then (String c0 (String c1 (String c2 (String c3 ""))), s4)
                  else (runeErrorBytes, s1)
              | _, _ => (runeErrorBytes, s1)
              end
            else (runeErrorBytes, s1)
        | _, _ => (runeErrorBytes, s1)
        end
  end.

(** The width of a verb: a star asks for an operand, and there is
    none.  The result is the format that is left, what is written,
    [afterIndex] and [goodArgNum]. *)
Definition width (s : string) (afterIndex good : bool)
  : string * string * bool * bool :=
  if at_byte "*" s then (next s, badWidthString, false, good)
  else
    let '(_, widPresent, s') := parsenum s in
    (s', "", afterIndex, if afterIndex && widPresent then false else good).

(** The precision of a verb, with the same result. *)
Definition precision (s : string) (afterIndex good : bool)
  : string * string * bool * bool :=
  if at_byte "." s then
    let good := if afterIndex then false else good in
    let '(s', afterIndex, good) := argNumber (next s) good in
    if at_byte "*" s' then (next s', badPrecString, false, good)
    else let '(_, _, s'') := parsenum s' in (s'', "", afterIndex, good)
  else (s, "", afterIndex, good).

(** What is written for the verb itself, [s] being the format from the
    verb on, and the format after the verb. *)
Definition verb (s : string) (good : bool) : string * string :=
  match s with
  | EmptyString => (noVerbString, "")
  | _ =>
      let (v, s') := decodeVerb s in
      (if String.eqb v "%" then "%"
       else if negb good then percentBangString ++ v ++ badIndexString
       else percentBangString ++ v ++ missingString,
       s')
  end.

(** One verb of [doPrintf], from the byte after the percent sign: what
    is written and the format that is left. *)
Definition directive (s : string) : string * string :=
  let '(s, afterIndex, good) := argNumber (skip_flags s) true in
  let '(s, out1, afterIndex, good) := width s afterIndex good in
  let '(s, out2, afterIndex, good) := precision s afterIndex good in
  let '(s, _, good) :=
    if afterIndex then (s, afterIndex, good) else argNumber s good in
  let (out3, s) := verb s good in
  (out1 ++ out2 ++ out3, s).

(** The bytes before the first percent sign, and the rest. *)
Fixpoint literal (s : string) : string * string :=
  match s with
  | String c s' =>
      if Ascii.eqb c "%" then ("", s)
      else let (lit, rest) := literal s' in (String c lit, rest)
  | EmptyString => ("", "")
  end.

(** The [formatLoop] of [doPrintf] without operands; every turn takes
    the percent sign at least, so [fuel] above the length of the format
    is never used up. *)
Fixpoint doPrintf (fuel : nat) (format : string) : string :=
  match fuel with
  | O => ""
  | S fuel' =>
      let (lit, rest) := literal format in
      match rest with
      | EmptyString => lit
      | String _ after =>
          let (out, rest') := directive after in
          lit ++ out ++ doPrintf fuel' rest'
      end
  end.

(** [fmt.Printf(format)]: the bytes written to standard output. *)
Definition Printf0 (format : string) : string :=
  doPrintf (S (String.length format)) format.

End fmt.

(** ** The membership snapshot ([k8s.io/api/core/v1]) *)

(** [core.EndpointAddress]; only [Hostname] is read. *)
Record EndpointAddress : Type := {
  IP : string;
  Hostname : string;
  NodeName : option string
}.

(** [core.EndpointSubset]; only [Addresses] is read. *)
Record EndpointSubset : Type := {
  Addresses : list EndpointAddress;
  NotReadyAddresses : list EndpointAddress
}.

(** [core.Endpoints]. *)
Record Endpoints : Type := {
  Subsets : list EndpointSubset
}.

(** ** The functions of [kube-endpoint-discovery.go] *)

(** [getHostnames]: the two nested [range] loops, each turn appending to
    [hostnames]. *)
Definition getHostnames (subsets : list EndpointSubset) : list string :=
  fold_left
    (fun hostnames ss =>
       fold_left (fun hostnames dns => (hostnames ++ [Hostname dns])%list)
                 (Addresses ss) hostnames)
    subsets [].

(** [getFqdn]; the parameters come in the order of the source:
    hostnames, namespace, service, domain. *)
Definition getFqdn (hostnames : list string)
  (namespaceName serviceName domainName : string) : list string :=
  fold_left
    (fun fqdns hostname =>
       (fqdns ++ [(hostname ++ "." ++ serviceName ++ "." ++ namespaceName
                            ++ "." ++ domainName)%string])%list)
    hostnames [].

(** [getNodeIndex]: the error of [Atoi] is dropped, the index into the
    slice of submatches is not checked. *)
Definition getNodeIndex (node : string) : outcome string :=
  match index (regexp.FindStringSubmatch node) 2 with
  | Panic msg => Panic msg
  | Ret digit =>
      let index := fst (strconv.Atoi digit) in
      let index := index + 1 in
      Ret (strconv.Itoa index)
  end.

(** The [zookeeper] loop of [formatOutput]; [out] is what standard output
    holds so far.  The operands of [Printf] are evaluated before it
    writes, so a panic of [getNodeIndex] leaves the line unwritten.  The
    format is constant and both operands are strings under [%s], which
    writes them as they are. *)
Fixpoint zookeeper_lines (result : list string) (out : string)
  : string * outcome unit :=
  match result with
  | [] => (out, Ret tt)
  | host :: rest =>
      match getNodeIndex host with
      | Panic msg => (out, Panic msg)
      | Ret idx =>
          zookeeper_lines rest
            (out ++ "server" ++ idx ++ ":" ++ host ++ ":2888:3888" ++ nl)
      end
  end.

(** [formatOutput]: the bytes written to standard output, and whether the
    call returns or panics.  In the default case the joined list is the
    FORMAT of [Printf], which has no operand. *)
Definition formatOutput (result : list string) (format : string)
  : string * outcome unit :=
  if String.eqb format "zookeeper" then zookeeper_lines result ""
  else if String.eqb format "elasticsearch" then
    ("discovery.zen.ping.unicast.hosts: [" ++ strings.Join result ", "
       ++ "]" ++ nl, Ret tt)
  else (fmt.Printf0 (strings.Join result ", "), Ret tt).

(** ** The membership poller (the loop of [main]) *)

(** [time.Duration]: nanoseconds. *)
Definition Duration : Type := Z.
Definition Second : Duration := 1000000000.
Definition Minute : Duration := 60 * Second.
Definition maxDuration : Duration := 9223372036854775807.

(** [time.Since(t)] when the clock reads [now]: the time elapsed,
    saturated at the largest [Duration]. *)
Definition Since (now t : Z) : Duration := Z.min (now - t) maxDuration.

(** What the outside world does at one turn of the loop: how long the
    [Get] call takes, what it returns ([None] when [err != nil]), and by
    how much [time.Sleep] overshoots (it pauses for at least the duration
    asked for).  Delays cannot be negative: the clock is monotonic. *)
Record Tick : Type := {
  latency : N;
  reply : option Endpoints;
  oversleep : N
}.

(** The world: the tick of every turn, the first one being turn 0. *)
Definition World : Type := nat -> Tick.

Inductive control : Type := Continue | Break.

(** The body of the loop on the reply of [Get]: the new value of [hosts]
    and how the turn ends.  The lines that [glog.Infof] logs do not go to
    standard output and are left out. *)
Definition body (count : Z) (namespaceName serviceName domainName : string)
  (r : option Endpoints) (hosts : list string) : list string * control :=
  match r with
  | None => (hosts, Continue)
  | Some endpoints =>
      let hosts :=
        getFqdn (getHostnames (Subsets endpoints))
                namespaceName serviceName domainName in
      if (0 <? Z.of_nat (List.length hosts))
         && (Z.of_nat (List.length hosts) =? count)
      then (hosts, Break) else (hosts, Continue)
  end.

Inductive exit_reason : Type := ByBreak | ByDeadline.

(** What is known when the loop is left. *)
Record PollResult : Type := {
  reason : exit_reason;
  hosts_at_exit : list string;
  fetches : nat;              (* calls of Get made *)
  clock_at_exit : Z;          (* nanoseconds since the loop started *)
  history : list (list string) (* hosts at the end of every turn *)
}.

(** The deadline of the loop, [5*time.Minute]. *)
Definition deadline : Duration := 5 * Minute.

(** The loop
    [for t := time.Now(); time.Since(t) < 5*time.Minute; time.Sleep(10 * time.Second)]
    from its condition on: [k] turns were made, the clock reads [now]
    nanoseconds after [t], [hist] is the history so far, latest first.
    [fuel] bounds the number of times the condition is evaluated; [None]
    means that it ran out. *)
Fixpoint poll (fuel : nat) (w : World) (count : Z)
  (namespaceName serviceName domainName : string)
  (k : nat) (now : Z) (hosts : list string) (hist : list (list string))
  : option PollResult :=
  match fuel with
  | O => None
  | S fuel' =>
      if Since now 0 <? deadline then
        let fetched := now + Z.of_N (latency (w k)) in
        match body count namespaceName serviceName domainName
                   (reply (w k)) hosts with
        | (hosts', Break) =>
            Some {| reason := ByBreak; hosts_at_exit := hosts';
                    fetches := S k; clock_at_exit := fetched;
                    history := rev (hosts' :: hist) |}
        | (hosts', Continue) =>
            poll fuel' w count namespaceName serviceName domainName (S k)
                 (fetched + 10 * Second + Z.of_N (oversleep (w k)))
                 hosts' (hosts' :: hist)
        end
      else
        Some {| reason := ByDeadline; hosts_at_exit := hosts;
                fetches := k; clock_at_exit := now;
                history := rev hist |}
  end.

(** [os.Getenv] on an environment: the empty string when the variable is
    unset. *)
Definition Getenv (environ : string -> option string) (key : string) : string :=
  match environ key with
  | Some v => v
  | None => ""
  end.

(** The quorum target, [count, _ := strconv.Atoi(os.Getenv(...))]. *)
Definition quorum_target (environ : string -> option string) : Z :=
  fst (strconv.Atoi (Getenv environ "MINIMUM_MASTER_NODES")).

(** The loop of [main] from its start: [hosts] is empty, no turn is
    made, and the clock is read for the first time right after [t] was
    taken. *)
Definition poller (fuel : nat) (w : World) (count : Z)
  (namespaceName serviceName domainName : string) : option PollResult :=
  poll fuel w count namespaceName serviceName domainName 0 0 [] [].

(** [main] once the clientset is built: the variables of the environment
    are read, the loop runs, and the list it leaves is formatted with the
    service name as the format. *)
Definition main (fuel : nat) (environ : string -> option string) (w : World)
  : option (string * outcome unit) :=
  let namespaceName := Getenv environ "ENDPOINT_NAMESPACE_NAME" in
  let serviceName := Getenv environ "ENDPOINT_SERVICE_NAME" in
  let domainName := Getenv environ "ENDPOINT_DOMAIN_NAME" in
  let count := quorum_target environ in
  match poller fuel w count namespaceName serviceName domainName with
  | Some r => Some (formatOutput (hosts_at_exit r) serviceName)
  | None => None
  end.

(** ** Vocabulary of the properties *)

(** Every byte of [s] is a word byte. *)
Fixpoint all_word (s : string) : bool :=
  match s with
  | EmptyString => true
  | String c s' => is_word c && all_word s'
  end.

(** [s] begins with a word (possibly empty), a dash and a digit. *)
Definition begins_word_dash_digit (s : string) : Prop :=
  exists (w : string) (c : ascii) (rest : string),
    s = w ++ "-" ++ String c rest /\ all_word w = true /\ is_digit c = true.

(** The byte of the decimal digit [d]. *)
Definition digit_byte (d : nat) : ascii := ascii_of_nat (48 + d).

(** The FQDN of one hostname, as the specification writes it. *)
Definition fqdn_of (serviceName namespaceName domainName hostname : string)
  : string :=
  hostname ++ "." ++ serviceName ++ "." ++ namespaceName ++ "." ++ domainName.

(** The condition under which the loop breaks, on a list of hosts. *)
Definition quorum (count : Z) (hosts : list string) : Prop :=
  0 < Z.of_nat (List.length hosts) /\ Z.of_nat (List.length hosts) = count.

(** The clock at the condition of turn [k] when no turn before it broke
    out of the loop. *)
Fixpoint turn_start (w : World) (k : nat) : Z :=
  match k with
  | O => 0
  | S k' =>
      turn_start w k' + Z.of_N (latency (w k')) + 10 * Second
        + Z.of_N (oversleep (w k'))
  end.

(** The value of [hosts] after turn [k] of a run that reaches it. *)
Fixpoint hosts_after (w : World)
  (namespaceName serviceName domainName : string) (k : nat) : list string :=
  match reply (w k) with
  | Some endpoints =>
      getFqdn (getHostnames (Subsets endpoints))
              namespaceName serviceName domainName
  | None =>
      match k with
      | O => []
      | S k' => hosts_after w namespaceName serviceName domainName k'
      end
  end.

(** The value of [hosts] at the condition of turn [k]. *)
Definition hosts_before (w : World)
  (namespaceName serviceName domainName : string) (k : nat) : list string :=
  match k with
  | O => []
  | S k' => hosts_after w namespaceName serviceName domainName k'
  end.


(** No byte of [s] is the percent sign. *)
Fixpoint percent_free (s : string) : bool :=
  match s with
  | EmptyString => true
  | String c s' => negb (Ascii.eqb c "%") && percent_free s'
  end.

(** ** Sample inputs *)

Definition address (hostname : string) : EndpointAddress :=
  {| IP := "10.0.0.1"; Hostname := hostname; NodeName := None |}.

(** A snapshot of one subset with the given hostnames. *)
Definition snapshot (hostnames : list string) : Endpoints :=
  {| Subsets := [ {| Addresses := map address hostnames;
                     NotReadyAddresses := [] |} ] |}.

(** Two failed fetches, then two members; nothing takes time but the
    sleep. *)
Definition sample_world : World :=
  fun k =>
    {| latency := 0;
       reply := if (k <? 2)%nat then None else Some (snapshot ["zk-0"; "zk-1"]);
       oversleep := 0 |}.

(** The run of the loop in [sample_world] for a target of two members. *)
Definition sample_run : PollResult :=
  {| reason := ByBreak;
     hosts_at_exit := ["zk-0.zookeeper.ns.local"; "zk-1.zookeeper.ns.local"];
     fetches := 3;
     clock_at_exit := 20 * Second;
     history := [ []; [];
                  ["zk-0.zookeeper.ns.local"; "zk-1.zookeeper.ns.local"] ] |}.

(** Every fetch takes one second and fails. *)
Definition slow_world : World :=
  fun _ => {| latency := 1000000000; reply := None; oversleep := 0 |}.

(** An environment in which no variable is set. *)
Definition empty_environ : string -> option string := fun _ => None.

(** One member of the service [nginx] is up at once. *)
Definition one_member_world : World :=
  fun _ => {| latency := 0; reply := Some (snapshot ["web-0"]); oversleep := 0 |}.

(** The environment of a service [nginx] that waits for one member; the
    domain name holds a percent sign. *)
Definition percent_environ (key : string) : option string :=
  if String.eqb key "ENDPOINT_NAMESPACE_NAME" then Some "default"
  else if String.eqb key "ENDPOINT_SERVICE_NAME" then Some "nginx"
  else if String.eqb key "ENDPOINT_DOMAIN_NAME" then Some "100%"
  else if String.eqb key "MINIMUM_MASTER_NODES" then Some "1"
  else None.

(** ** Functions of the source outside the loop and the formatter *)

(** [homeDir]: the value of [HOME] when it is not empty, else that of
    [USERPROFILE]. *)
Definition homeDir (environ : string -> option string) : string :=
  let h := Getenv environ "HOME" in
  if negb (String.eqb h "") then h else Getenv environ "USERPROFILE".

(** ** Vocabulary of further properties *)

(** The number of ready addresses of a snapshot. *)
Definition ready_addresses (subsets : list EndpointSubset) : nat :=
  list_sum (map (fun ss => List.length (Addresses ss)) subsets).

(** The snapshot of the last successful fetch among the first [n] turns. *)
Fixpoint last_fetched (w : World) (n : nat) : option Endpoints :=
  match n with
  | O => None
  | S k =>
      match reply (w k) with
      | Some endpoints => Some endpoints
      | None => last_fetched w k
      end
  end.

(** The line of one host in the [zookeeper] format. *)
Definition zookeeper_line (host : string) : string :=
  match getNodeIndex host with
  | Ret idx => "server" ++ idx ++ ":" ++ host ++ ":2888:3888" ++ nl
  | Panic _ => ""
  end.

(** A world in which nothing but the sleep takes time. *)
Definition instant_world (w : World) : Prop :=
  forall k, latency (w k) = 0%N /\ oversleep (w k) = 0%N.

(** Every fetch fails at once. *)
Definition failing_world : World :=
  fun _ => {| latency := 0; reply := None; oversleep := 0 |}.




(** * Loops that append *)

Section LoopsAsMaps.

Context {A B : Type} (f : A -> B).

(** A [range] loop that appends one element per turn is a [map]. *)
Lemma fold_append_map (l : list A) (acc : list B) :
  fold_left (fun acc x => (acc ++ [f x])%list) l acc = (acc ++ map f l)%list.
Proof.
  revert acc; induction l as [|x l IH]; intros acc; simpl.
  - now rewrite app_nil_r.
  - rewrite IH, <- app_assoc. reflexivity.
Qed.

End LoopsAsMaps.

Lemma getFqdn_map (hostnames : list string) (ns svc dom : string) :
  getFqdn hostnames ns svc dom = map (fqdn_of svc ns dom) hostnames.
Proof. unfold getFqdn. now rewrite (fold_append_map (fqdn_of svc ns dom)). Qed.

Lemma getHostnames_flat_map (subsets : list EndpointSubset) :
  getHostnames subsets = flat_map (fun ss => map Hostname (Addresses ss)) subsets.
Proof.
  unfold getHostnames.
  enough (G : forall acc,
             fold_left
               (fun hostnames ss =>
                  fold_left (fun hostnames dns => (hostnames ++ [Hostname dns])%list)
                            (Addresses ss) hostnames) subsets acc
             = (acc ++ flat_map (fun ss => map Hostname (Addresses ss)) subsets)%list)
    by apply (G []).
  induction subsets as [|ss subsets IH]; intros acc; simpl.
  - now rewrite app_nil_r.
  - rewrite IH, (fold_append_map Hostname), <- app_assoc. reflexivity.
Qed.

(** * The pattern of [getNodeIndex] *)

Ltac bytes c := destruct c as [[] [] [] [] [] [] [] []].

Lemma match_tail_inv (s d : string) :
  regexp.match_tail s = Some d ->
  exists c rest, s = String "-" (String c rest) /\ d = String c "" /\ is_digit c = true.
Proof.
  destruct s as [|a [|c rest]]; simpl; try discriminate.
  destruct (Ascii.eqb_spec a "-") as [->|]; simpl; try discriminate.
  destruct (is_digit c) eqn:E; try discriminate.
  intros [= <-]. now exists c, rest.
Qed.

Lemma match_word_star_sound (s w d : string) :
  regexp.match_word_star s = Some (w, d) ->
  exists c rest,
    d = String c "" /\ s = w ++ String "-" (String c rest)
    /\ all_word w = true /\ is_digit c = true.
Proof.
  revert w d; induction s as [|a s IH]; intros w d; simpl.
  - discriminate.
  - assert (T : option_map (pair "") (regexp.match_tail (String a s)) = Some (w, d) ->
                exists c rest, d = String c "" /\ String a s = w ++ String "-" (String c rest)
                               /\ all_word w = true /\ is_digit c = true).
    { destruct (regexp.match_tail (String a s)) as [d'|] eqn:E; simpl; try discriminate.
      intros [= <- <-]. apply match_tail_inv in E as (c & rest & -> & -> & Hc).
      now exists c, rest. }
    destruct (is_word a) eqn:Ha; [|exact T].
    destruct (regexp.match_word_star s) as [[w' d']|] eqn:E; [|exact T].
    intros [= <- <-]. destruct (IH _ _ eq_refl) as (c & rest & -> & -> & Hw & Hc).
    exists c, rest. simpl. now rewrite Ha, Hw.
Qed.

Lemma match_word_star_complete (w : string) (c : ascii) (rest : string) :
  all_word w = true -> is_digit c = true ->
  regexp.match_word_star (w ++ String "-" (String c rest)) = Some (w, String c "").
Proof.
  intros Hw Hc; induction w as [|a w IH]; simpl in *.
  - now rewrite Hc.
  - apply andb_true_iff in Hw as [Ha Hw]. now rewrite Ha, (IH Hw).
Qed.

Lemma search_false (s : string) : regexp.search false s = None.
Proof. induction s as [|a s IH]; simpl; [reflexivity | exact IH]. Qed.

(** The search finds what the one attempt at the beginning of the text
    finds: the anchor rules every other position out. *)
Lemma search_at_start (s : string) :
  regexp.search true s = regexp.match_here true s.
Proof.
  destruct s as [|a s].
  - reflexivity.
  - change (regexp.search true (String a s))
      with (match regexp.match_here true (String a s) with
            | Some m => Some m
            | None => regexp.search false s
            end).
    destruct (regexp.match_here true (String a s)); [reflexivity | apply search_false].
Qed.

Lemma FindStringSubmatch_match (w : string) (c : ascii) (rest : string) :
  all_word w = true -> is_digit c = true ->
  regexp.FindStringSubmatch (w ++ "-" ++ String c rest)
  = [w ++ "-" ++ String c ""; w; String c ""].
Proof.
  intros Hw Hc. unfold regexp.FindStringSubmatch.
  rewrite search_at_start. unfold regexp.match_here.
  change ("-" ++ String c rest) with (String "-" (String c rest)).
  now rewrite (match_word_star_complete w c rest Hw Hc).
Qed.

Lemma FindStringSubmatch_no_match (s : string) :
  ~ begins_word_dash_digit s -> regexp.FindStringSubmatch s = [].
Proof.
  intros H. unfold regexp.FindStringSubmatch.
  rewrite search_at_start. unfold regexp.match_here.
  destruct (regexp.match_word_star s) as [[w d]|] eqn:E; [|reflexivity].
  exfalso; apply H. apply match_word_star_sound in E as (c & rest & -> & -> & Hw & Hc).
  now exists w, c, rest.
Qed.

(** A decision procedure for the pattern. *)
Lemma begins_word_dash_digit_iff (s : string) :
  begins_word_dash_digit s <-> regexp.FindStringSubmatch s <> [].
Proof.
  split.
  - intros (w & c & rest & -> & Hw & Hc).
    rewrite (FindStringSubmatch_match w c rest Hw Hc). discriminate.
  - intros H. destruct (regexp.match_word_star s) as [[w d]|] eqn:E.
    + apply match_word_star_sound in E as (c & rest & -> & -> & Hw & Hc).
      now exists w, c, rest.
    + exfalso; apply H. unfold regexp.FindStringSubmatch.
      rewrite search_at_start. unfold regexp.match_here. now rewrite E.
Qed.

(** * [strconv] on one digit *)

Lemma Atoi_digit (c : ascii) :
  is_digit c = true -> strconv.Atoi (String c "") = (digit_val c, None).
Proof. bytes c; intros H; try discriminate H; reflexivity. Qed.

Lemma digit_byte_is_digit (d : nat) : (d < 10)%nat -> is_digit (digit_byte d) = true.
Proof. intros H. do 10 (destruct d as [|d]; [reflexivity|]). lia. Qed.

Lemma digit_byte_val (d : nat) : (d < 10)%nat -> digit_val (digit_byte d) = Z.of_nat d.
Proof. intros H. do 10 (destruct d as [|d]; [reflexivity|]). lia. Qed.

(** * [getNodeIndex] *)

Lemma getNodeIndex_match (w : string) (c : ascii) (rest : string) :
  all_word w = true -> is_digit c = true ->
  getNodeIndex (w ++ "-" ++ String c rest) = Ret (strconv.Itoa (digit_val c + 1)).
Proof.
  intros Hw Hc. unfold getNodeIndex.
  rewrite (FindStringSubmatch_match w c rest Hw Hc).
  cbv beta iota delta [index nth_error]. now rewrite (Atoi_digit c Hc).
Qed.

Lemma getNodeIndex_no_match (node : string) :
  ~ begins_word_dash_digit node ->
  getNodeIndex node = Panic "runtime error: index out of range".
Proof.
  intros H. unfold getNodeIndex. now rewrite (FindStringSubmatch_no_match node H).
Qed.

(** * The FQDN of a hostname and the pattern *)

Lemma match_tail_dot (h x : string) :
  regexp.match_tail (h ++ String "." x) = regexp.match_tail h.
Proof.
  destruct h as [|a [|d h]]; simpl.
  - destruct x; reflexivity.
  - now rewrite andb_false_r.
  - reflexivity.
Qed.

Lemma match_word_star_dot (h x : string) :
  regexp.match_word_star (h ++ String "." x) = regexp.match_word_star h.
Proof.
  induction h as [|a h IH].
  - simpl. destruct x; reflexivity.
  - change (String a h ++ String "." x) with (String a (h ++ String "." x)).
    cbn [regexp.match_word_star]. rewrite IH.
    change (String a (h ++ String "." x)) with (String a h ++ String "." x).
    now rewrite match_tail_dot.
Qed.

(** The pattern sees of an FQDN what it sees of the hostname: the dot
    after the hostname is no word byte, no dash and no digit. *)
Lemma FindStringSubmatch_fqdn (svc ns dom h : string) :
  regexp.FindStringSubmatch (fqdn_of svc ns dom h) = regexp.FindStringSubmatch h.
Proof.
  unfold regexp.FindStringSubmatch, fqdn_of. rewrite !search_at_start.
  unfold regexp.match_here.
  change ("." ++ svc ++ "." ++ ns ++ "." ++ dom)
    with (String "." (svc ++ "." ++ ns ++ "." ++ dom)).
  now rewrite match_word_star_dot.
Qed.

Lemma begins_fqdn_iff (svc ns dom h : string) :
  begins_word_dash_digit (fqdn_of svc ns dom h) <-> begins_word_dash_digit h.
Proof. now rewrite !begins_word_dash_digit_iff, FindStringSubmatch_fqdn. Qed.

Lemma getNodeIndex_fqdn (svc ns dom h : string) :
  getNodeIndex (fqdn_of svc ns dom h) = getNodeIndex h.
Proof. unfold getNodeIndex. now rewrite FindStringSubmatch_fqdn. Qed.

Lemma empty_hostname_malformed : ~ begins_word_dash_digit "".
Proof. rewrite begins_word_dash_digit_iff. intros H; now apply H. Qed.

Lemma begins_word_dash_digit_dec (s : string) :
  {begins_word_dash_digit s} + {~ begins_word_dash_digit s}.
Proof.
  destruct (list_eq_dec string_dec (regexp.FindStringSubmatch s) []) as [E|E].
  - right. now rewrite begins_word_dash_digit_iff.
  - left. now rewrite begins_word_dash_digit_iff.
Qed.

(** * The [zookeeper] lines *)

Lemma getNodeIndex_begins (s : string) :
  begins_word_dash_digit s -> exists idx, getNodeIndex s = Ret idx.
Proof.
  intros (w & c & rest & -> & Hw & Hc). eexists. now apply getNodeIndex_match.
Qed.

Lemma zookeeper_lines_good (good rest : list string) (out : string) :
  Forall begins_word_dash_digit good ->
  exists out',
    zookeeper_lines good out = (out', Ret tt)
    /\ zookeeper_lines (good ++ rest) out = zookeeper_lines rest out'.
Proof.
  intros HF; revert out; induction HF as [|h good Hh HF IH]; intros out.
  - exists out. split; reflexivity.
  - destruct (getNodeIndex_begins h Hh) as [idx Hidx]. simpl. rewrite Hidx.
    apply IH.
Qed.

Lemma zookeeper_lines_bad (h : string) (rest : list string) (out : string) :
  ~ begins_word_dash_digit h ->
  zookeeper_lines (h :: rest) out = (out, Panic "runtime error: index out of range").
Proof. intros Hh. simpl. now rewrite (getNodeIndex_no_match h Hh). Qed.

(** The first hostname that the pattern rejects. *)
Lemma first_malformed (H : list string) :
  (exists h, In h H /\ ~ begins_word_dash_digit h) ->
  exists good h rest,
    H = (good ++ h :: rest)%list
    /\ Forall begins_word_dash_digit good /\ ~ begins_word_dash_digit h.
Proof.
  induction H as [|a H IH]; intros (h & Hin & Hbad).
  - destruct Hin.
  - destruct (begins_word_dash_digit_dec a) as [Ha|Ha].
    + destruct Hin as [->|Hin]; [contradiction|].
      destruct IH as (good & h' & rest & -> & HF & Hh'); [now exists h|].
      exists (a :: good), h', rest. repeat split; auto.
    + exists [], a, H. repeat split; auto.
Qed.

(** * [Printf] without operands *)

Section PrintfFacts.

Local Abbreviation len := String.length.

Lemma next_len (s : string) : (len (fmt.next s) <= len s)%nat.
Proof. destruct s; simpl; lia. Qed.

Lemma skip_flags_len (s : string) : (len (fmt.skip_flags s) <= len s)%nat.
Proof.
  induction s as [|c s IH]; simpl; [lia|].
  destruct (_ || _); simpl; lia.
Qed.

Lemma parsenum_from_len (s : string) (n : Z) (b : bool) :
  (len (snd (fmt.parsenum_from s n b)) <= len s)%nat.
Proof.
  revert n b; induction s as [|c s IH]; intros n b; simpl; [lia|].
  destruct (is_digit c); simpl; [|lia].
  destruct (fmt.tooLarge n); simpl; [lia|].
  specialize (IH (n * 10 + digit_val c) true). lia.
Qed.

Lemma parsenum_len (s : string) : (len (snd (fmt.parsenum s)) <= len s)%nat.
Proof. apply parsenum_from_len. Qed.

Lemma until_bracket_len (s inner rest : string) :
  fmt.until_bracket s = Some (inner, rest) -> (len rest < len s)%nat.
Proof.
  revert inner rest; induction s as [|c s IH]; intros inner rest; simpl.
  - discriminate.
  - destruct (Ascii.eqb c "]").
    + intros [= <- <-]. lia.
    + destruct (fmt.until_bracket s) as [[i r]|]; [|discriminate].
      intros [= <- <-]. specialize (IH _ _ eq_refl). lia.
Qed.

Lemma parseArgNumber_len (s : string) :
  (len (snd (fmt.parseArgNumber s)) <= len s)%nat.
Proof.
  destruct s as [|c s]; [simpl; lia|].
  unfold fmt.parseArgNumber.
  destruct (_ <? 3)%nat; [simpl; lia|].
  destruct (fmt.until_bracket s) as [[inner rest]|] eqn:E; [|simpl; lia].
  apply until_bracket_len in E.
  destruct (fmt.parsenum inner) as [[width ok] unread].
  destruct (_ || _); simpl; lia.
Qed.

Lemma argNumber_len (s : string) (g : bool) :
  (len (fst (fst (fmt.argNumber s g))) <= len s)%nat.
Proof.
  unfold fmt.argNumber. destruct (fmt.at_byte "[" s); [|simpl; lia].
  pose proof (parseArgNumber_len s) as H.
  destruct (fmt.parseArgNumber s) as [[i ok] rest]. exact H.
Qed.

Lemma width_len (s : string) (a g : bool) :
  (len (fst (fst (fst (fmt.width s a g)))) <= len s)%nat.
Proof.
  unfold fmt.width. destruct (fmt.at_byte "*" s); [exact (next_len s)|].
  pose proof (parsenum_len s) as H.
  destruct (fmt.parsenum s) as [[n p] r]. exact H.
Qed.

Lemma precision_len (s : string) (a g : bool) :
  (len (fst (fst (fst (fmt.precision s a g)))) <= len s)%nat.
Proof.
  unfold fmt.precision. destruct (fmt.at_byte "." s); [|simpl; lia].
  pose proof (next_len s) as H0.
  pose proof (argNumber_len (fmt.next s) (if a then false else g)) as H1.
  destruct (fmt.argNumber (fmt.next s) (if a then false else g)) as [[s' a'] g'].
  simpl in H1.
  destruct (fmt.at_byte "*" s').
  - pose proof (next_len s'). simpl. lia.
  - pose proof (parsenum_len s') as H2.
    destruct (fmt.parsenum s') as [[n p] r]. simpl in *. lia.
Qed.

Lemma decodeVerb_len (s : string) :
  (len (snd (fmt.decodeVerb s)) <= len s)%nat.
Proof.
  destruct s as [|c0 s1]; [simpl; lia|].
  unfold fmt.decodeVerb.
  destruct (_ <? _)%N; [simpl; lia|].
  destruct (fmt.utf8_first c0) as [[[sz lo] hi]|]; [|simpl; lia].
  destruct s1 as [|c1 s2]; [simpl; lia|].
  destruct (byte_in lo hi c1); [|simpl; lia].
  destruct sz as [|[|[|[|[|sz]]]]]; try (simpl; lia).
  - destruct s2 as [|c2 s3]; [simpl; lia|].
    destruct (byte_in _ _ c2); simpl; lia.
  - destruct s2 as [|c2 [|c3 s4]]; try (simpl; lia).
    destruct (_ && _); simpl; lia.
Qed.

Lemma verb_len (s : string) (g : bool) :
  (len (snd (fmt.verb s g)) <= len s)%nat.
Proof.
  destruct s as [|c s]; [simpl; lia|].
  unfold fmt.verb. pose proof (decodeVerb_len (String c s)) as H.
  destruct (fmt.decodeVerb (String c s)) as [v s']. exact H.
Qed.

Lemma directive_len (s : string) :
  (len (snd (fmt.directive s)) <= len s)%nat.
Proof.
  unfold fmt.directive.
  pose proof (skip_flags_len s) as H0.
  pose proof (argNumber_len (fmt.skip_flags s) true) as H1.
  destruct (fmt.argNumber (fmt.skip_flags s) true) as [[s1 a1] g1]; simpl in H1.
  pose proof (width_len s1 a1 g1) as H2.
  destruct (fmt.width s1 a1 g1) as [[[s2 o1] a2] g2]; simpl in H2.
  pose proof (precision_len s2 a2 g2) as H3.
  destruct (fmt.precision s2 a2 g2) as [[[s3 o2] a3] g3]; simpl in H3.
  assert (H4 : (len (fst (fst (if a3 then (s3, a3, g3) else fmt.argNumber s3 g3)))
                <= len s3)%nat).
  { destruct a3; [simpl; lia | apply argNumber_len]. }
  destruct (if a3 then (s3, a3, g3) else fmt.argNumber s3 g3) as [[s4 a4] g4];
    simpl in H4.
  pose proof (verb_len s4 g4) as H5.
  destruct (fmt.verb s4 g4) as [o3 s5]; simpl in *. lia.
Qed.

Lemma literal_len (s : string) : (len (snd (fmt.literal s)) <= len s)%nat.
Proof.
  induction s as [|c s IH]; simpl; [lia|].
  destruct (Ascii.eqb c "%"); simpl; [lia|].
  destruct (fmt.literal s) as [lit rest]; simpl in *. lia.
Qed.

(** The fuel of [Printf0] is enough: more fuel writes the same bytes. *)
Lemma doPrintf_fuel (n m : nat) (s : string) :
  (len s < n)%nat -> (len s < m)%nat -> fmt.doPrintf n s = fmt.doPrintf m s.
Proof.
  revert m s; induction n as [|n IH]; intros m s Hn Hm; [lia|].
  destruct m as [|m]; [lia|]. simpl.
  pose proof (literal_len s) as HL.
  destruct (fmt.literal s) as [lit rest]; simpl in HL.
  destruct rest as [|c after]; [reflexivity|].
  pose proof (directive_len after) as HD.
  destruct (fmt.directive after) as [out rest']; simpl in HD, HL.
  rewrite (IH m rest'); [reflexivity | lia | lia].
Qed.

Lemma literal_percent_free (s : string) :
  percent_free s = true -> fmt.literal s = (s, "").
Proof.
  induction s as [|c s IH]; simpl; [reflexivity|].
  destruct (Ascii.eqb c "%"); simpl; [discriminate|].
  intros H. now rewrite (IH H).
Qed.

(** A format without a percent sign is written as it is. *)
Lemma Printf0_percent_free (s : string) :
  percent_free s = true -> fmt.Printf0 s = s.
Proof.
  intros H. unfold fmt.Printf0. simpl. now rewrite (literal_percent_free s H).
Qed.

End PrintfFacts.

(** * The membership poller *)

Lemma Since_lt_deadline (now : Z) :
  (Since now 0 <? deadline) = (now <? deadline).
Proof.
  unfold Since, maxDuration, deadline, Minute, Second.
  destruct (Z.ltb_spec now (5 * (60 * 1000000000)));
    destruct (Z.ltb_spec (Z.min (now - 0) 9223372036854775807)
                         (5 * (60 * 1000000000))); lia.
Qed.

Lemma body_break_iff (count : Z) (ns svc dom : string)
  (r : option Endpoints) (hosts : list string) :
  snd (body count ns svc dom r hosts) = Break
  <-> exists endpoints,
        r = Some endpoints
        /\ quorum count (getFqdn (getHostnames (Subsets endpoints)) ns svc dom).
Proof.
  unfold body, quorum. destruct r as [endpoints|]; simpl.
  - set (fresh := getFqdn _ _ _ _).
    destruct (Z.ltb_spec 0 (Z.of_nat (List.length fresh)));
      destruct (Z.eqb_spec (Z.of_nat (List.length fresh)) count); simpl; split;
      intros H'; try discriminate H'; try reflexivity;
      try (exists endpoints; repeat split; assumption);
      destruct H' as (e' & [= <-] & H1 & H2); fold fresh in H1, H2; lia.
  - split; [discriminate | intros (e & [=] & _)].
Qed.

Section PollerFacts.

Variables (count : Z) (ns svc dom : string).

Lemma body_fst (w : World) (k : nat) :
  fst (body count ns svc dom (reply (w k)) (hosts_before w ns svc dom k))
  = hosts_after w ns svc dom k.
Proof.
  unfold body. destruct k as [|k]; simpl; destruct (reply (w _)); simpl;
    try reflexivity; destruct (_ && _); reflexivity.
Qed.

Lemma turn_start_lower (w : World) (k : nat) :
  Z.of_nat k * (10 * Second) <= turn_start w k.
Proof.
  unfold Second. induction k as [|k IH]; simpl turn_start; [lia|].
  unfold Second. lia.
Qed.

Lemma history_snoc {A : Type} (f : nat -> A) (k : nat) :
  rev (f k :: rev (map f (seq 0 k))) = map f (seq 0 (S k)).
Proof. simpl rev. now rewrite rev_involutive, seq_S, map_app. Qed.

Lemma history_cons {A : Type} (f : nat -> A) (k : nat) :
  f k :: rev (map f (seq 0 k)) = rev (map f (seq 0 (S k))).
Proof. now rewrite seq_S, map_app, rev_app_distr. Qed.

(** A run of the loop from the state of turn [k]: the turn [n] at which
    it ends, and what it returns. *)
Lemma poll_char (w : World) (fuel k : nat) (r : PollResult) :
  poll fuel w count ns svc dom k (turn_start w k)
       (hosts_before w ns svc dom k)
       (rev (map (hosts_after w ns svc dom) (seq 0 k))) = Some r ->
  exists n : nat,
    (k <= n)%nat
    /\ (forall j, (k <= j < n)%nat ->
           turn_start w j < deadline
           /\ snd (body count ns svc dom (reply (w j))
                        (hosts_before w ns svc dom j)) = Continue)
    /\ ((deadline <= turn_start w n
         /\ r = {| reason := ByDeadline;
                   hosts_at_exit := hosts_before w ns svc dom n;
                   fetches := n;
                   clock_at_exit := turn_start w n;
                   history := map (hosts_after w ns svc dom) (seq 0 n) |})
        \/ (turn_start w n < deadline
            /\ snd (body count ns svc dom (reply (w n))
                         (hosts_before w ns svc dom n)) = Break
            /\ r = {| reason := ByBreak;
                      hosts_at_exit := hosts_after w ns svc dom n;
                      fetches := S n;
                      clock_at_exit := turn_start w n + Z.of_N (latency (w n));
                      history := map (hosts_after w ns svc dom) (seq 0 (S n)) |})).
Proof.
  revert k; induction fuel as [|fuel IH]; intros k; [discriminate|].
  cbn [poll]. rewrite Since_lt_deadline.
  destruct (Z.ltb_spec (turn_start w k) deadline) as [Hlt|Hge].
  - pose proof (body_fst w k) as Hfst.
    destruct (body count ns svc dom (reply (w k)) (hosts_before w ns svc dom k))
      as [hosts' [|]] eqn:B; simpl in Hfst; subst hosts'.
    + rewrite history_cons. intros H.
      destruct (IH (S k) H) as (n & Hn & Hturns & Hend).
      exists n. split; [lia|]. split; [|exact Hend].
      intros j Hj. destruct (Nat.eq_dec j k) as [->|Hne].
      * now rewrite B.
      * apply Hturns. lia.
    + rewrite history_snoc. intros [= <-].
      exists k. split; [lia|]. split; [intros j Hj; lia|].
      right. rewrite B. repeat split; auto.
  - rewrite rev_involutive. intros [= <-].
    exists k. split; [lia|]. split; [intros j Hj; lia|]. now left.
Qed.

(** Enough fuel: every turn takes ten seconds off what is left. *)
Lemma poll_total (w : World) (fuel k : nat) (now : Z)
  (hosts : list string) (hist : list (list string)) :
  deadline <= now + Z.of_nat fuel * (10 * Second) ->
  exists r, poll (S fuel) w count ns svc dom k now hosts hist = Some r.
Proof.
  revert k now hosts hist; induction fuel as [|fuel IH];
    intros k now hosts hist Hfuel; cbn [poll]; rewrite Since_lt_deadline.
  - destruct (Z.ltb_spec now deadline); [lia|]. eexists; reflexivity.
  - destruct (Z.ltb_spec now deadline); [|eexists; reflexivity].
    destruct (body _ _ _ _ _ _) as [hosts' [|]]; [|eexists; reflexivity].
    apply IH. unfold Second in *. lia.
Qed.

Lemma poll_fuel_mono (w : World) (fuel fuel' k : nat) (now : Z)
  (hosts : list string) (hist : list (list string)) (r : PollResult) :
  poll fuel w count ns svc dom k now hosts hist = Some r ->
  (fuel <= fuel')%nat ->
  poll fuel' w count ns svc dom k now hosts hist = Some r.
Proof.
  revert fuel' k now hosts hist; induction fuel as [|fuel IH];
    intros fuel' k now hosts hist H Hle; [discriminate|].
  destruct fuel' as [|fuel']; [lia|]. cbn [poll] in *.
  destruct (_ <? _); [|exact H].
  destruct (body _ _ _ _ _ _) as [hosts' [|]]; [|exact H].
  apply IH; [exact H | lia].
Qed.

Lemma poll_fetches_ge (w : World) (fuel k : nat) (now : Z)
  (hosts : list string) (hist : list (list string)) (r : PollResult) :
  poll fuel w count ns svc dom k now hosts hist = Some r ->
  (k <= fetches r)%nat /\ (now < deadline -> (k < fetches r)%nat).
Proof.
  revert k now hosts hist; induction fuel as [|fuel IH];
    intros k now hosts hist H; [discriminate|].
  cbn [poll] in H. rewrite Since_lt_deadline in H.
  destruct (Z.ltb_spec now deadline).
  - destruct (body _ _ _ _ _ _) as [hosts' [|]].
    + apply IH in H as [H _]. lia.
    + injection H as <-. simpl. lia.
  - injection H as <-. simpl. lia.
Qed.

(** The loop reads the world at the turns it makes, and nowhere else. *)
Lemma poll_world_ext (w w' : World) (fuel k : nat) (now : Z)
  (hosts : list string) (hist : list (list string)) (r : PollResult) :
  poll fuel w count ns svc dom k now hosts hist = Some r ->
  (forall j, (k <= j < fetches r)%nat -> w' j = w j) ->
  poll fuel w' count ns svc dom k now hosts hist = Some r.
Proof.
  revert k now hosts hist; induction fuel as [|fuel IH];
    intros k now hosts hist H Hw; [discriminate|].
  pose proof (poll_fetches_ge _ _ _ _ _ _ _ H) as [Hk Hk'].
  cbn [poll] in *. rewrite Since_lt_deadline in *.
  destruct (Z.ltb_spec now deadline) as [Hlt|]; [|exact H].
  specialize (Hk' Hlt). rewrite (Hw k) by lia.
  destruct (body _ _ _ _ _ _) as [hosts' [|]]; [|exact H].
  apply IH; [exact H|]. intros j Hj. apply Hw. lia.
Qed.

(** A run of the whole loop. *)
Lemma poller_char (w : World) (fuel : nat) (r : PollResult) :
  poller fuel w count ns svc dom = Some r ->
  exists n : nat,
    (forall j, (j < n)%nat ->
           turn_start w j < deadline
           /\ snd (body count ns svc dom (reply (w j))
                        (hosts_before w ns svc dom j)) = Continue)
    /\ ((deadline <= turn_start w n
         /\ r = {| reason := ByDeadline;
                   hosts_at_exit := hosts_before w ns svc dom n;
                   fetches := n;
                   clock_at_exit := turn_start w n;
                   history := map (hosts_after w ns svc dom) (seq 0 n) |})
        \/ (turn_start w n < deadline
            /\ snd (body count ns svc dom (reply (w n))
                         (hosts_before w ns svc dom n)) = Break
            /\ r = {| reason := ByBreak;
                      hosts_at_exit := hosts_after w ns svc dom n;
                      fetches := S n;
                      clock_at_exit := turn_start w n + Z.of_N (latency (w n));
                      history := map (hosts_after w ns svc dom) (seq 0 (S n)) |})).
Proof.
  intros H. destruct (poll_char w fuel 0 r H) as (n & _ & Hturns & Hend).
  exists n. split; [|exact Hend]. intros j Hj. apply Hturns. lia.
Qed.

(** The list of a turn that does not break has no quorum, as long as
    no turn before it broke. *)
Lemma no_quorum_while_polling (w : World) (n : nat) :
  (forall j, (j < n)%nat ->
      snd (body count ns svc dom (reply (w j))
                (hosts_before w ns svc dom j)) = Continue) ->
  forall j, (j < n)%nat -> ~ quorum count (hosts_after w ns svc dom j).
Proof.
  intros Hc j; induction j as [|j IH]; intros Hj Hq.
  - specialize (Hc 0%nat Hj). simpl in *.
    destruct (reply (w 0%nat)) as [e|] eqn:E.
    + assert (B : snd (body count ns svc dom (Some e) []) = Break)
        by (apply body_break_iff; now exists e).
      congruence.
    + destruct Hq as [Hq _]. simpl in Hq. lia.
  - specialize (Hc (S j) Hj). cbn [hosts_after hosts_before] in *.
    destruct (reply (w (S j))) as [e|] eqn:E.
    + assert (B : snd (body count ns svc dom (Some e)
                            (hosts_after w ns svc dom j)) = Break)
        by (apply body_break_iff; now exists e).
      congruence.
    + apply IH; [lia | exact Hq].
Qed.

End PollerFacts.

Lemma hosts_after_fetched (w : World) (ns svc dom : string) (k : nat)
  (endpoints : Endpoints) :
  reply (w k) = Some endpoints ->
  hosts_after w ns svc dom k
  = getFqdn (getHostnames (Subsets endpoints)) ns svc dom.
Proof. intros E. destruct k; simpl; now rewrite E. Qed.


Lemma nth_error_map_seq {A : Type} (f : nat -> A) (m k : nat) :
  (k < m)%nat -> nth_error (map f (seq 0 m)) k = Some (f k).
Proof.
  intros H. rewrite nth_error_map, nth_error_seq.
  destruct (Nat.ltb_spec k m); [reflexivity | lia].
Qed.


Lemma poller_deterministic (w : World) (count : Z) (ns svc dom : string)
  (fuel fuel' : nat) (r r' : PollResult) :
  poller fuel w count ns svc dom = Some r ->
  poller fuel' w count ns svc dom = Some r' -> r = r'.
Proof.
  unfold poller. intros H H'.
  apply (poll_fuel_mono _ _ _ _ _ _ (Nat.max fuel fuel')) in H; [|lia].
  apply (poll_fuel_mono _ _ _ _ _ _ (Nat.max fuel fuel')) in H'; [|lia].
  congruence.
Qed.



(** Thirty-one evaluations of the condition are enough for every run. *)
Lemma poller_total (w : World) (count : Z) (ns svc dom : string) :
  exists r, poller 31 w count ns svc dom = Some r.
Proof.
  apply (poll_total count ns svc dom w 30 0 0 [] []). vm_compute. discriminate.
Qed.

(** * The properties of the specification *)

(** C7 (FQDN Builder).  For every hostname sequence and every service,
    namespace and domain name, [getFqdn] returns a sequence of the same
    length whose i-th element is the i-th hostname followed by a dot, the
    service name, a dot, the namespace name, a dot and the domain name.
    Nothing is validated: the function has no failure, and empty
    components are concatenated like any other. *)
Theorem getFqdn_pointwise (H : list string)
  (serviceName namespaceName domainName : string) :
  List.length (getFqdn H namespaceName serviceName domainName) = List.length H
  /\ (forall i : nat,
         nth_error (getFqdn H namespaceName serviceName domainName) i
         = option_map
             (fun h => h ++ "." ++ serviceName ++ "." ++ namespaceName
                         ++ "." ++ domainName)
             (nth_error H i))
  /\ getFqdn H "" "" "" = map (fun h => h ++ "...") H.
Proof.
  rewrite !getFqdn_map.
  split; [apply length_map | split; [intros i; apply nth_error_map | reflexivity]].
Qed.

(** C3 (Index Deriver, failure).  For every string that does not begin
    with a word, a dash and a digit, the pattern of [getNodeIndex] yields
    no submatch and the unchecked index into the empty slice panics. *)
Theorem getNodeIndex_panics_without_match (node : string) :
  ~ begins_word_dash_digit node ->
  regexp.FindStringSubmatch node = []
  /\ getNodeIndex node = Panic "runtime error: index out of range".
Proof.
  intros H. split.
  - now apply FindStringSubmatch_no_match.
  - now apply getNodeIndex_no_match.
Qed.

Lemma getNodeIndex_panics_without_match_witness :
  regexp.FindStringSubmatch "malformed" = []
  /\ getNodeIndex "malformed" = Panic "runtime error: index out of range".
Proof.
  apply (getNodeIndex_panics_without_match "malformed").
  intros H. apply begins_word_dash_digit_iff in H. apply H. reflexivity.
Defined.

(** C4 (Index Deriver, result).  For every hostname made of a word, a
    dash and one digit [d], [getNodeIndex] returns the decimal
    representation of [d + 1]. *)
Theorem getNodeIndex_word_dash_digit (w : string) (d : nat) :
  all_word w = true -> (d < 10)%nat ->
  getNodeIndex (w ++ "-" ++ String (digit_byte d) "")
  = Ret (strconv.Itoa (Z.of_nat d + 1)).
Proof.
  intros Hw Hd.
  rewrite (getNodeIndex_match w (digit_byte d) "" Hw (digit_byte_is_digit d Hd)).
  now rewrite (digit_byte_val d Hd).
Qed.

Lemma getNodeIndex_word_dash_digit_witness : getNodeIndex "svc-3" = Ret "4".
Proof.
  apply (getNodeIndex_word_dash_digit "svc" 3); [reflexivity | lia].
Defined.

(** The word of the pattern holds no dash: a hostname with a dash inside
    its name is not of the form of C4, and the index deriver panics. *)
Example getNodeIndex_dash_in_name :
  getNodeIndex "my-zk-0" = Panic "runtime error: index out of range".
Proof. reflexivity. Qed.

(** C5 as the specification states it fails: the index of [zk-9] is not
    2. *)
Lemma getNodeIndex_zk9_is_not_2 :
  ~ (getNodeIndex "zk-0" = Ret "1" /\ getNodeIndex "zk-9" = Ret "2").
Proof. intros [_ H]. discriminate H. Qed.

(** C5 (Index Deriver, examples), amended.  [getNodeIndex] maps [zk-0]
    to 1 and [zk-9] to 10, the digit plus one. *)
Theorem getNodeIndex_examples :
  getNodeIndex "zk-0" = Ret "1" /\ getNodeIndex "zk-9" = Ret "10".
Proof. split; reflexivity. Qed.

(** The three formats on the examples of the specification. *)
Example formatOutput_zookeeper_example :
  formatOutput ["zk-0.svc.ns.example.com"] "zookeeper"
  = ("server1:zk-0.svc.ns.example.com:2888:3888" ++ nl, Ret tt).
Proof. reflexivity. Qed.

Example formatOutput_elasticsearch_example :
  formatOutput ["a"; "b"] "elasticsearch"
  = ("discovery.zen.ping.unicast.hosts: [a, b]" ++ nl, Ret tt).
Proof. reflexivity. Qed.

Example formatOutput_default_example :
  formatOutput ["a"; "b"] "nginx" = ("a, b", Ret tt).
Proof. reflexivity. Qed.

(** Where the joined list holds no percent sign, the default case of
    [formatOutput] writes it as it is, without a line feed. *)
Lemma formatOutput_default_percent_free (result : list string) (format : string) :
  format <> "zookeeper" -> format <> "elasticsearch" ->
  percent_free (strings.Join result ", ") = true ->
  formatOutput result format = (strings.Join result ", ", Ret tt).
Proof.
  intros Hz He Hp. unfold formatOutput.
  apply String.eqb_neq in Hz, He. rewrite Hz, He.
  now rewrite (Printf0_percent_free _ Hp).
Qed.

(** C6 (Output Formatter, default case).  The joined list is passed to
    [Printf] as its format, so a percent sign in an FQDN is read as a
    verb without operand: on the list [a%d; b] the formatter writes an
    error marker where the claim promises the joined list itself.  The
    program gets there when the domain name of its environment holds a
    percent sign. *)
Theorem formatOutput_default_reads_verbs :
  formatOutput ["a%d"; "b"] "nginx" = ("a%!d(MISSING), b", Ret tt)
  /\ strings.Join ["a%d"; "b"] ", " = "a%d, b"
  /\ fst (formatOutput ["a%d"; "b"] "nginx") <> strings.Join ["a%d"; "b"] ", "
  /\ main 31 percent_environ one_member_world
     = Some ("web-0.nginx.default.100%!(NOVERB)", Ret tt).
Proof.
  split; [reflexivity|]. split; [reflexivity|]. split; [discriminate|].
  vm_compute. reflexivity.
Qed.

(** C1 (Membership Poller, success exit).  The loop is left by [break]
    exactly when the list it holds has a length above zero and equal to
    the quorum target.  The break happens at the first turn whose freshly
    computed list is such, a turn that started before the deadline; the
    list returned is the one computed at that turn, and the run does not
    depend on what the world would answer afterwards: no fetch follows. *)
Theorem poller_breaks_exactly_on_quorum (fuel : nat) (w : World) (count : Z)
  (ns svc dom : string) (r : PollResult) :
  poller fuel w count ns svc dom = Some r ->
  (reason r = ByBreak <-> quorum count (hosts_at_exit r))
  /\ (forall j, (S j < fetches r)%nat ->
         ~ quorum count (hosts_after w ns svc dom j))
  /\ (reason r = ByBreak ->
      exists (n : nat) (endpoints : Endpoints),
        fetches r = S n
        /\ turn_start w n < deadline
        /\ reply (w n) = Some endpoints
        /\ hosts_at_exit r
           = getFqdn (getHostnames (Subsets endpoints)) ns svc dom
        /\ List.length (history r) = S n
        /\ nth_error (history r) n = Some (hosts_at_exit r)
        /\ forall (w' : World) (fuel' : nat),
             (forall j, (j <= n)%nat -> w' j = w j) -> (fuel <= fuel')%nat ->
             poller fuel' w' count ns svc dom = Some r).
Proof.
  intros H.
  destruct (poller_char _ _ _ _ _ _ _ H) as (n & Hturns & [[Hge Hr]|(Hlt & Hb & Hr)]).
  - assert (Hnq : forall j, (j < n)%nat -> ~ quorum count (hosts_after w ns svc dom j)).
    { apply no_quorum_while_polling. intros j Hj. now apply Hturns. }
    subst r; simpl. split; [|split].
    + split; [discriminate|]. intros Hq. exfalso.
      destruct n as [|n]; simpl in Hq.
      * destruct Hq as [Hq _]. simpl in Hq. lia.
      * apply (Hnq n); [lia | exact Hq].
    + intros j Hj. apply Hnq. lia.
    + discriminate.
  - assert (Hnq : forall j, (j < n)%nat -> ~ quorum count (hosts_after w ns svc dom j)).
    { apply no_quorum_while_polling. intros j Hj. now apply Hturns. }
    apply body_break_iff in Hb as (endpoints & Hrep & Hq).
    pose proof (hosts_after_fetched w ns svc dom n endpoints Hrep) as Hafter.
    assert (Hf : fetches r = S n) by now subst r.
    split; [|split].
    + subst r; cbn [reason hosts_at_exit]. rewrite Hafter.
      split; [intros _; exact Hq | reflexivity].
    + intros j Hj. apply Hnq. lia.
    + intros _. exists n, endpoints.
      assert (Hext : forall (w' : World) (fuel' : nat),
                 (forall j, (j <= n)%nat -> w' j = w j) -> (fuel <= fuel')%nat ->
                 poller fuel' w' count ns svc dom = Some r).
      { intros w' fuel' Hw Hle. unfold poller in *.
        apply (poll_fuel_mono _ _ _ _ _ fuel); [|exact Hle].
        apply (poll_world_ext _ _ _ _ w); [exact H|].
        rewrite Hf. intros j Hj. apply Hw. lia. }
      subst r; cbn [reason hosts_at_exit fetches clock_at_exit history] in *.
      repeat split; auto.
      * now rewrite length_map, length_seq.
      * apply nth_error_map_seq. lia.
Qed.

Lemma poller_breaks_exactly_on_quorum_witness :
  reason sample_run = ByBreak <-> quorum 2 (hosts_at_exit sample_run).
Proof.
  apply (poller_breaks_exactly_on_quorum
           31 sample_world 2 "ns" "zookeeper" "local" sample_run).
  reflexivity.
Defined.

(** The target is met by equality only: three members for a target of
    two keep the loop going until the deadline. *)
Example more_members_than_target_is_no_quorum :
  exists r,
    poller 31 (fun _ => {| latency := 0;
                           reply := Some (snapshot ["zk-0"; "zk-1"; "zk-2"]);
                           oversleep := 0 |})
           2 "ns" "zookeeper" "local" = Some r
    /\ reason r = ByDeadline /\ fetches r = 30%nat
    /\ List.length (hosts_at_exit r) = 3%nat.
Proof.
  eexists. split; [vm_compute; reflexivity|].
  split; [reflexivity|]. split; reflexivity.
Qed.

(** C2 as the specification states it fails: when every fetch takes a
    second, the loop is left 308 seconds after its start, after the
    deadline. *)
Lemma slow_fetches_overrun_the_deadline :
  ~ (exists (fuel : nat) (r : PollResult),
        poller fuel slow_world 3 "ns" "svc" "local" = Some r
        /\ clock_at_exit r <= deadline).
Proof.
  intros (fuel & r & H & Hle).
  assert (E : exists r0, poller 31 slow_world 3 "ns" "svc" "local" = Some r0
                         /\ clock_at_exit r0 = 308 * Second)
    by (eexists; split; vm_compute; reflexivity).
  destruct E as (r0 & H0 & Hc).
  rewrite (poller_deterministic _ _ _ _ _ _ _ _ _ H H0), Hc in Hle.
  vm_compute in Hle. now apply Hle.
Qed.

(** C2 (Membership Poller, termination), amended.  Whatever the fetches
    return and however long they take, the loop ends: the deadline is
    checked before every turn, no turn starts at or after it, and at most
    30 turns are made, whether or not a quorum is reached.  A loop that
    ends on the deadline ends at the first check at or after it, which
    comes later than the deadline by less than the last fetch and its
    sleep. *)
Theorem poller_terminates_within_thirty_turns (w : World) (count : Z)
  (ns svc dom : string) :
  exists r : PollResult,
    poller 31 w count ns svc dom = Some r
    /\ (1 <= fetches r <= 30)%nat
    /\ (forall j, (j < fetches r)%nat -> turn_start w j < deadline)
    /\ (reason r = ByDeadline ->
        deadline <= clock_at_exit r
        /\ clock_at_exit r
           < deadline + Z.of_N (latency (w (pred (fetches r)))) + 10 * Second
             + Z.of_N (oversleep (w (pred (fetches r))))).
Proof.
  destruct (poller_total w count ns svc dom) as [r H].
  exists r. split; [exact H|].
  assert (Hbound : forall j, turn_start w j < deadline -> (j < 30)%nat).
  { intros j Hj. pose proof (turn_start_lower w j) as Hl.
    unfold deadline, Minute, Second in *. lia. }
  destruct (poller_char _ _ _ _ _ _ _ H) as (n & Hturns & [[Hge ->]|(Hlt & Hb & ->)]);
    cbn [fetches reason clock_at_exit].
  - assert (Hn : (1 <= n)%nat).
    { destruct n; [|lia]. cbn [turn_start] in Hge. vm_compute in Hge. now exfalso. }
    assert (Hlast : turn_start w (pred n) < deadline) by (apply Hturns; lia).
    split; [|split].
    + apply Hbound in Hlast. lia.
    + intros j Hj. now apply Hturns.
    + intros _. split; [exact Hge|].
      destruct n as [|n]; [lia|]. cbn [pred turn_start] in *. lia.
  - split; [|split].
    + apply Hbound in Hlt. lia.
    + intros j Hj. destruct (Nat.eq_dec j n) as [->|]; [exact Hlt|].
      apply Hturns. lia.
    + discriminate.
Qed.



(** * Further properties of the hostname extractor *)

Lemma getHostnames_app (s1 s2 : list EndpointSubset) :
  getHostnames (s1 ++ s2) = (getHostnames s1 ++ getHostnames s2)%list.
Proof. rewrite !getHostnames_flat_map. apply flat_map_app. Qed.

Lemma getHostnames_count (subsets : list EndpointSubset) :
  List.length (getHostnames subsets) = ready_addresses subsets.
Proof.
  rewrite getHostnames_flat_map. unfold ready_addresses.
  induction subsets as [|ss subsets IH]; simpl; [reflexivity|].
  now rewrite length_app, length_map, IH.
Qed.

(** X1 (Hostname Extractor, size).  [getHostnames] returns as many
    hostnames as the subsets have ready addresses, the empty ones and
    the repeated ones included; without subsets it returns the empty
    list. *)
Theorem getHostnames_length (subsets : list EndpointSubset) :
  List.length (getHostnames subsets) = ready_addresses subsets
  /\ getHostnames [] = [].
Proof.
  split; [apply getHostnames_count | reflexivity].
Qed.

(** X2 (Hostname Extractor, order).  The hostnames come subset after
    subset, and inside a subset in the order of its addresses: the list
    of several subsets is the concatenation of their lists, and the list
    of one subset is the hostnames of its addresses. *)
Theorem getHostnames_in_order (s1 s2 : list EndpointSubset) (ss : EndpointSubset) :
  getHostnames (s1 ++ s2) = (getHostnames s1 ++ getHostnames s2)%list
  /\ getHostnames [ss] = map Hostname (Addresses ss)
  /\ getHostnames (ss :: s2)
     = (map Hostname (Addresses ss) ++ getHostnames s2)%list.
Proof.
  split; [apply getHostnames_app|].
  rewrite !getHostnames_flat_map. simpl. now rewrite app_nil_r.
Qed.

(** X3 (Hostname Extractor, nothing filtered).  A string is among the
    hostnames returned exactly when it is the hostname of a ready address
    of some subset; every occurrence is kept, so a hostname is counted as
    many times as addresses carry it. *)
Theorem getHostnames_membership (subsets : list EndpointSubset) (h : string) :
  (In h (getHostnames subsets)
   <-> exists ss a, In ss subsets /\ In a (Addresses ss) /\ Hostname a = h)
  /\ count_occ string_dec (getHostnames subsets) h
     = list_sum (map (fun ss => count_occ string_dec
                                  (map Hostname (Addresses ss)) h) subsets).
Proof.
  rewrite getHostnames_flat_map. split.
  - rewrite in_flat_map. split.
    + intros (ss & Hss & Hin). apply in_map_iff in Hin as (a & Ha & Hin).
      now exists ss, a.
    + intros (ss & a & Hss & Ha & Hh). exists ss. split; [exact Hss|].
      apply in_map_iff. now exists a.
  - induction subsets as [|ss subsets IH]; simpl; [reflexivity|].
    now rewrite count_occ_app, IH.
Qed.

(** X4 (Hostname Extractor, fields read).  Only the hostnames of the
    ready addresses are read: two snapshots that agree on them give the
    same list, whatever their IPs, node names and addresses that are not
    ready. *)
Theorem getHostnames_reads_ready_hostnames_only (s1 s2 : list EndpointSubset) :
  map (fun ss => map Hostname (Addresses ss)) s1
  = map (fun ss => map Hostname (Addresses ss)) s2 ->
  getHostnames s1 = getHostnames s2.
Proof.
  intros H. rewrite !getHostnames_flat_map, !flat_map_concat_map. now rewrite H.
Qed.

Lemma getHostnames_reads_ready_hostnames_only_witness :
  getHostnames [ {| Addresses := [address "zk-0"]; NotReadyAddresses := [] |} ]
  = getHostnames
      [ {| Addresses := [ {| IP := "10.9.9.9"; Hostname := "zk-0";
                             NodeName := Some "node-b" |} ];
           NotReadyAddresses := [address "zk-1"] |} ].
Proof.
  apply getHostnames_reads_ready_hostnames_only. reflexivity.
Defined.

(** * Further properties of the FQDN builder *)

Lemma append_cancel_r (a b s : string) : a ++ s = b ++ s -> a = b.
Proof.
  intros H.
  assert (L : String.length a = String.length b).
  { apply (f_equal String.length) in H.
    assert (G : forall x y, String.length (x ++ y)
                            = (String.length x + String.length y)%nat)
      by (intros x y; induction x as [|c x IH]; simpl; [reflexivity | now rewrite IH]).
    rewrite !G in H. lia. }
  revert b H L; induction a as [|c a IH]; intros [|d b] H L;
    try discriminate L; [reflexivity|].
  simpl in H. injection H as -> H. f_equal. apply IH; [exact H|].
  simpl in L. lia.
Qed.

Lemma fqdn_of_injective (svc ns dom h1 h2 : string) :
  fqdn_of svc ns dom h1 = fqdn_of svc ns dom h2 -> h1 = h2.
Proof. apply append_cancel_r. Qed.

(** X5 (FQDN Builder, no collision).  Within one service, namespace and
    domain, different hostnames never get the same FQDN: the list of
    hostnames can be read back from the list of FQDNs, and a list without
    repetition stays without repetition. *)
Theorem getFqdn_injective (H1 H2 : list string) (ns svc dom : string) :
  (getFqdn H1 ns svc dom = getFqdn H2 ns svc dom <-> H1 = H2)
  /\ (NoDup (getFqdn H1 ns svc dom) <-> NoDup H1).
Proof.
  rewrite !getFqdn_map. split; split.
  - revert H2; induction H1 as [|a H1 IH]; intros [|b H2] H;
      try discriminate H; [reflexivity|].
    simpl in H. injection H as Ha H. f_equal.
    + eapply fqdn_of_injective; exact Ha.
    + now apply IH.
  - now intros ->.
  - apply NoDup_map_inv.
  - intros HN; induction HN as [|a l Ha HN IH]; simpl; constructor; [|exact IH].
    intros Hin. apply in_map_iff in Hin as (b & Hb & Hin).
    apply fqdn_of_injective in Hb. now subst b.
Qed.

(** X6 (FQDN Builder after the extractor).  The FQDN list of a snapshot
    is the concatenation of the FQDN lists of its subsets, and it has one
    entry per ready address. *)
Theorem getFqdn_of_snapshot (s1 s2 : list EndpointSubset) (ns svc dom : string) :
  getFqdn (getHostnames (s1 ++ s2)) ns svc dom
  = (getFqdn (getHostnames s1) ns svc dom
       ++ getFqdn (getHostnames s2) ns svc dom)%list
  /\ List.length (getFqdn (getHostnames (s1 ++ s2)) ns svc dom)
     = (ready_addresses s1 + ready_addresses s2)%nat.
Proof.
  rewrite !getFqdn_map, getHostnames_app, map_app. split; [reflexivity|].
  rewrite length_app, !length_map.
  now rewrite !getHostnames_count.
Qed.

(** * Further properties of the index deriver *)

(** What the pattern finds: nothing, or the match and its two groups, the
    second being one digit. *)
Lemma FindStringSubmatch_shape (node : string) :
  regexp.FindStringSubmatch node = []
  \/ exists (w : string) (c : ascii),
       all_word w = true /\ is_digit c = true
       /\ regexp.FindStringSubmatch node
          = [w ++ "-" ++ String c ""; w; String c ""].
Proof.
  unfold regexp.FindStringSubmatch. rewrite search_at_start.
  unfold regexp.match_here.
  destruct (regexp.match_word_star node) as [[w d]|] eqn:E; [|now left].
  apply match_word_star_sound in E as (c & rest & -> & -> & Hw & Hc).
  right. now exists w, c.
Qed.

Lemma Itoa_digit_succ (c : ascii) :
  is_digit c = true ->
  In (strconv.Itoa (digit_val c + 1))
     ["1"; "2"; "3"; "4"; "5"; "6"; "7"; "8"; "9"; "10"].
Proof.
  destruct c as [[] [] [] [] [] [] [] []]; intros H; try discriminate H;
    vm_compute; tauto.
Qed.

(** X7 (Index Deriver, first digit only).  Nothing after the first digit
    is read: a word, a dash and a digit [d] give the index [d + 1]
    whatever follows, so the ordinals from ten on share the indices of
    their first digit. *)
Theorem getNodeIndex_reads_one_digit (w : string) (d : nat) (rest : string) :
  all_word w = true -> (d < 10)%nat ->
  getNodeIndex (w ++ "-" ++ String (digit_byte d) rest)
  = Ret (strconv.Itoa (Z.of_nat d + 1))
  /\ getNodeIndex (w ++ "-" ++ String (digit_byte d) rest)
     = getNodeIndex (w ++ "-" ++ String (digit_byte d) "").
Proof.
  intros Hw Hd.
  rewrite !(getNodeIndex_match w (digit_byte d) _ Hw (digit_byte_is_digit d Hd)).
  now rewrite (digit_byte_val d Hd).
Qed.

Lemma getNodeIndex_reads_one_digit_witness :
  getNodeIndex "zk-12" = Ret "2" /\ getNodeIndex "zk-12" = getNodeIndex "zk-1".
Proof.
  apply (getNodeIndex_reads_one_digit "zk" 1 "2"); [reflexivity | lia].
Defined.

(** X8 (Index Deriver, range).  When [getNodeIndex] returns, it returns
    one of the ten indices from 1 to 10, never 0; when it does not, it
    panics on the index out of range. *)
Theorem getNodeIndex_range (node : string) :
  (exists idx, getNodeIndex node = Ret idx
               /\ In idx ["1"; "2"; "3"; "4"; "5"; "6"; "7"; "8"; "9"; "10"])
  \/ getNodeIndex node = Panic "runtime error: index out of range".
Proof.
  unfold getNodeIndex.
  destruct (FindStringSubmatch_shape node) as [->|(w & c & Hw & Hc & ->)].
  - now right.
  - left. cbv beta iota delta [index nth_error]. rewrite (Atoi_digit c Hc).
    eexists. split; [reflexivity|]. now apply Itoa_digit_succ.
Qed.

(** X9 (Index Deriver, dropped error).  The error of [Atoi] that
    [getNodeIndex] drops never occurs: whenever the pattern matches, its
    second group is one decimal digit, which [Atoi] reads without
    error as a number from 0 to 9. *)
Theorem getNodeIndex_Atoi_never_fails (node group : string) :
  index (regexp.FindStringSubmatch node) 2 = Ret group ->
  snd (strconv.Atoi group) = None /\ 0 <= fst (strconv.Atoi group) <= 9.
Proof.
  destruct (FindStringSubmatch_shape node) as [->|(w & c & Hw & Hc & ->)].
  - discriminate.
  - cbv beta iota delta [index nth_error]. intros [= <-].
    rewrite (Atoi_digit c Hc). split; [reflexivity|]. simpl.
    revert Hc. destruct c as [[] [] [] [] [] [] [] []]; intros Hc;
      try discriminate Hc; vm_compute; split; discriminate.
Qed.

Lemma getNodeIndex_Atoi_never_fails_witness :
  snd (strconv.Atoi "3") = None /\ 0 <= fst (strconv.Atoi "3") <= 9.
Proof.
  apply (getNodeIndex_Atoi_never_fails "svc-3.ns" "3"). reflexivity.
Defined.

(** X10 (Index Deriver after the FQDN builder).  The names that
    [getFqdn] appends never change the index: the index of every FQDN is
    the index of its hostname, panics included. *)
Theorem getNodeIndex_of_fqdns (H : list string) (ns svc dom : string) :
  map getNodeIndex (getFqdn H ns svc dom) = map getNodeIndex H.
Proof.
  rewrite getFqdn_map, map_map. apply map_ext. intros h.
  apply getNodeIndex_fqdn.
Qed.

(** * Further properties of the output formatter *)

Lemma append_assoc (a b c : string) : (a ++ b) ++ c = a ++ (b ++ c).
Proof. induction a as [|x a IH]; simpl; [reflexivity | now rewrite IH]. Qed.

Lemma append_empty_r (a : string) : a ++ "" = a.
Proof. induction a as [|x a IH]; simpl; [reflexivity | now rewrite IH]. Qed.

Lemma zookeeper_lines_all_good (hosts : list string) (out : string) :
  Forall begins_word_dash_digit hosts ->
  zookeeper_lines hosts out
  = (out ++ fold_right String.append "" (map zookeeper_line hosts), Ret tt).
Proof.
  intros HF; revert out; induction HF as [|h hosts Hh HF IH]; intros out.
  - simpl. now rewrite append_empty_r.
  - destruct (getNodeIndex_begins h Hh) as [idx Hidx].
    cbn [zookeeper_lines map fold_right]. rewrite Hidx, IH.
    unfold zookeeper_line at 2. rewrite Hidx. f_equal.
    now rewrite !append_assoc.
Qed.

(** X11 (Output Formatter, zookeeper lines).  When every host begins
    with a word, a dash and a digit, the [zookeeper] format returns after
    writing one line per host, in the order of the list and nothing
    else: [server], the index of the host, a colon, the host and the
    two ports. *)
Theorem formatOutput_zookeeper_lines (result : list string) :
  Forall begins_word_dash_digit result ->
  formatOutput result "zookeeper"
  = (fold_right String.append "" (map zookeeper_line result), Ret tt)
  /\ Forall (fun host =>
               exists idx, getNodeIndex host = Ret idx
                           /\ zookeeper_line host
                              = "server" ++ idx ++ ":" ++ host ++ ":2888:3888" ++ nl)
            result.
Proof.
  intros HF. split.
  - unfold formatOutput. simpl String.eqb. cbv iota.
    now rewrite (zookeeper_lines_all_good result "" HF).
  - eapply Forall_impl; [|exact HF]. intros host Hh.
    destruct (getNodeIndex_begins host Hh) as [idx Hidx].
    exists idx. unfold zookeeper_line. now rewrite Hidx.
Qed.

Lemma formatOutput_zookeeper_lines_witness :
  formatOutput ["zk-0.zookeeper.ns.local"; "zk-1.zookeeper.ns.local"] "zookeeper"
  = ("server1:zk-0.zookeeper.ns.local:2888:3888" ++ nl
       ++ "server2:zk-1.zookeeper.ns.local:2888:3888" ++ nl, Ret tt).
Proof.
  apply (formatOutput_zookeeper_lines
           ["zk-0.zookeeper.ns.local"; "zk-1.zookeeper.ns.local"]).
  repeat constructor; apply begins_word_dash_digit_iff; discriminate.
Defined.

Lemma formatOutput_panic_cases (result : list string) (format : string) :
  (exists msg, snd (formatOutput result format) = Panic msg)
  <-> format = "zookeeper"
      /\ Exists (fun host => ~ begins_word_dash_digit host) result.
Proof.
  unfold formatOutput. destruct (String.eqb_spec format "zookeeper") as [->|Hz].
  - destruct (Forall_Exists_dec begins_word_dash_digit
                begins_word_dash_digit_dec result) as [HF|HE].
    + rewrite (zookeeper_lines_all_good result "" HF). simpl. split.
      * intros [msg H]. discriminate H.
      * intros [_ HE]. exfalso. apply Exists_exists in HE as (h & Hin & Hbad).
        rewrite Forall_forall in HF. exact (Hbad (HF h Hin)).
    + split; [intros _; now split|]. intros _.
      apply Exists_exists in HE.
      destruct (first_malformed result HE) as (good & h & rest & -> & HF & Hh).
      destruct (zookeeper_lines_good good (h :: rest) "" HF) as (out & _ & ->).
      rewrite (zookeeper_lines_bad h rest out Hh). simpl. now eexists.
  - split.
    + intros [msg H]. destruct (String.eqb format "elasticsearch"); discriminate H.
    + intros [H _]. contradiction.
Qed.

(** X12 (Output Formatter, panics).  [formatOutput] panics in one case
    only: the format is [zookeeper] and some host of the list does not
    begin with a word, a dash and a digit.  The [elasticsearch] format
    and the default one return for every list. *)
Theorem formatOutput_panics_iff (result : list string) (format : string) :
  ((exists msg, snd (formatOutput result format) = Panic msg)
   <-> format = "zookeeper"
       /\ Exists (fun host => ~ begins_word_dash_digit host) result)
  /\ (snd (formatOutput result format) = Ret tt
      <-> ~ (format = "zookeeper"
             /\ Exists (fun host => ~ begins_word_dash_digit host) result)).
Proof.
  pose proof (formatOutput_panic_cases result format) as Hp.
  split; [exact Hp|]. rewrite <- Hp.
  destruct (snd (formatOutput result format)) as [[]|msg]; split.
  - intros _ [msg H]. discriminate H.
  - reflexivity.
  - discriminate.
  - intros H. exfalso. apply H. now exists msg.
Qed.

Lemma percent_free_append (a b : string) :
  percent_free (a ++ b) = percent_free a && percent_free b.
Proof.
  induction a as [|c a IH]; simpl; [reflexivity|].
  now rewrite IH, andb_assoc.
Qed.

Lemma Join_percent_free (result : list string) :
  Forall (fun host => percent_free host = true) result ->
  percent_free (strings.Join result ", ") = true.
Proof.
  intros HF; induction HF as [|h l Hh HF IH]; [reflexivity|].
  destruct l as [|h' l]; [exact Hh|].
  change (strings.Join (h :: h' :: l) ", ")
    with (h ++ ", " ++ strings.Join (h' :: l) ", ").
  now rewrite !percent_free_append, Hh, IH.
Qed.

(** X13 (Output Formatter, default format without percent sign).  For a
    format other than [zookeeper] and [elasticsearch] and hosts that hold
    no percent sign, the formatter returns after writing the hosts
    joined by a comma and a space, with nothing before or after them: no
    output at all for the empty list, no line feed at the end. *)
Theorem formatOutput_default_joins (result : list string) (format : string) :
  format <> "zookeeper" -> format <> "elasticsearch" ->
  Forall (fun host => percent_free host = true) result ->
  formatOutput result format = (strings.Join result ", ", Ret tt)
  /\ formatOutput [] format = ("", Ret tt).
Proof.
  intros Hz He HF. unfold formatOutput.
  apply String.eqb_neq in Hz, He. rewrite Hz, He. split; [|reflexivity].
  now rewrite (Printf0_percent_free _ (Join_percent_free result HF)).
Qed.

Lemma formatOutput_default_joins_witness :
  formatOutput ["web-0.nginx.ns.local"; "web-1.nginx.ns.local"] "nginx"
  = ("web-0.nginx.ns.local, web-1.nginx.ns.local", Ret tt)
  /\ formatOutput [] "nginx" = ("", Ret tt).
Proof.
  apply (formatOutput_default_joins
           ["web-0.nginx.ns.local"; "web-1.nginx.ns.local"] "nginx");
    [discriminate | discriminate | repeat constructor].
Defined.

(** * Further properties of the membership poller *)

Lemma turn_start_mono (w : World) (j k : nat) :
  (j <= k)%nat -> turn_start w j <= turn_start w k.
Proof.
  induction 1 as [|k Hle IH]; [lia|]. cbn [turn_start]. unfold Second. lia.
Qed.

Lemma turn_start_instant (w : World) (k : nat) :
  instant_world w -> turn_start w k = Z.of_nat k * (10 * Second).
Proof.
  intros Hw; induction k as [|k IH]; [reflexivity|].
  cbn [turn_start]. destruct (Hw k) as [-> ->]. rewrite IH. unfold Second. lia.
Qed.

Lemma hosts_before_last_fetched (w : World) (ns svc dom : string) (n : nat) :
  hosts_before w ns svc dom n
  = match last_fetched w n with
    | Some endpoints => getFqdn (getHostnames (Subsets endpoints)) ns svc dom
    | None => []
    end.
Proof.
  induction n as [|n IH]; [reflexivity|].
  cbn [hosts_before last_fetched]. destruct n as [|n]; cbn [hosts_after];
    destruct (reply (w _)); try reflexivity. exact IH.
Qed.

Lemma poller_hosts_at_exit (fuel : nat) (w : World) (count : Z)
  (ns svc dom : string) (r : PollResult) :
  poller fuel w count ns svc dom = Some r ->
  hosts_at_exit r
  = match last_fetched w (fetches r) with
    | Some endpoints => getFqdn (getHostnames (Subsets endpoints)) ns svc dom
    | None => []
    end.
Proof.
  intros H.
  destruct (poller_char _ _ _ _ _ _ _ H) as (n & _ & [[_ ->]|(_ & _ & ->)]);
    cbn [hosts_at_exit fetches].
  - apply hosts_before_last_fetched.
  - apply (hosts_before_last_fetched w ns svc dom (S n)).
Qed.

(** X14 (Membership Poller, list returned).  The list that the loop
    leaves is the FQDN list of the last fetch that succeeded among the
    fetches made, however many failed after it, and the empty list when
    none succeeded. *)
Theorem poller_returns_last_fetched (fuel : nat) (w : World) (count : Z)
  (ns svc dom : string) (r : PollResult) :
  poller fuel w count ns svc dom = Some r ->
  hosts_at_exit r
  = match last_fetched w (fetches r) with
    | Some endpoints => getFqdn (getHostnames (Subsets endpoints)) ns svc dom
    | None => []
    end.
Proof. apply poller_hosts_at_exit. Qed.

Lemma poller_returns_last_fetched_witness :
  hosts_at_exit sample_run
  = match last_fetched sample_world (fetches sample_run) with
    | Some endpoints =>
        getFqdn (getHostnames (Subsets endpoints)) "ns" "zookeeper" "local"
    | None => []
    end.
Proof.
  apply (poller_returns_last_fetched 31 sample_world 2). reflexivity.
Defined.



(** X16 (Membership Poller, instant fetches).  When nothing but the
    sleep takes time, a loop that ends on the deadline has made exactly
    30 fetches and ends exactly five minutes after its start; a loop that
    ends by break ends ten seconds after its start for every fetch
    before the last. *)
Theorem poller_instant_world (fuel : nat) (w : World) (count : Z)
  (ns svc dom : string) (r : PollResult) :
  instant_world w ->
  poller fuel w count ns svc dom = Some r ->
  (reason r = ByDeadline -> fetches r = 30%nat /\ clock_at_exit r = deadline)
  /\ (reason r = ByBreak ->
      clock_at_exit r = Z.of_nat (pred (fetches r)) * (10 * Second)).
Proof.
  intros Hw H.
  destruct (poller_char _ _ _ _ _ _ _ H) as (n & Hturns & [[Hge ->]|(Hlt & _ & ->)]);
    cbn [reason clock_at_exit fetches pred]; split; try discriminate; intros _.
  - rewrite (turn_start_instant w n Hw) in *.
    assert (Hn : (n <= 30)%nat).
    { destruct n as [|n]; [lia|].
      destruct (Hturns n) as [Hlt _]; [lia|].
      rewrite (turn_start_instant w n Hw) in Hlt.
      unfold deadline, Minute, Second in *. lia. }
    unfold deadline, Minute, Second in *. split; lia.
  - rewrite (turn_start_instant w n Hw). destruct (Hw n) as [-> _]. lia.
Qed.

Lemma poller_instant_world_witness :
  (reason sample_run = ByDeadline ->
   fetches sample_run = 30%nat /\ clock_at_exit sample_run = deadline)
  /\ (reason sample_run = ByBreak ->
      clock_at_exit sample_run
      = Z.of_nat (pred (fetches sample_run)) * (10 * Second)).
Proof.
  apply (poller_instant_world 31 sample_world 2 "ns" "zookeeper" "local").
  - intros k. split; reflexivity.
  - reflexivity.
Defined.

(** X17 (Membership Poller, quorum is not missed).  When some turn that
    starts before the deadline fetches a list whose length is above zero
    and equal to the target, the loop ends by break, at that turn or at
    an earlier one with such a list; when the first fetch does, the loop
    ends after one fetch, without sleeping. *)
Theorem poller_breaks_when_quorum_shows (w : World) (count : Z)
  (ns svc dom : string) (n : nat) (endpoints : Endpoints) :
  turn_start w n < deadline ->
  reply (w n) = Some endpoints ->
  quorum count (getFqdn (getHostnames (Subsets endpoints)) ns svc dom) ->
  exists r : PollResult,
    poller 31 w count ns svc dom = Some r
    /\ reason r = ByBreak
    /\ (fetches r <= S n)%nat
    /\ (n = 0%nat -> clock_at_exit r = Z.of_N (latency (w 0%nat))).
Proof.
  intros Hlt Hrep Hq.
  assert (Hb : snd (body count ns svc dom (reply (w n))
                         (hosts_before w ns svc dom n)) = Break)
    by (apply body_break_iff; now exists endpoints).
  destruct (poller_total w count ns svc dom) as [r H].
  exists r. split; [exact H|].
  destruct (poller_char _ _ _ _ _ _ _ H) as (m & Hturns & [[Hge ->]|(_ & _ & ->)]);
    cbn [reason fetches clock_at_exit].
  - exfalso. destruct (Nat.lt_ge_cases n m) as [Hnm|Hmn].
    + destruct (Hturns n Hnm) as [_ Hc]. congruence.
    + pose proof (turn_start_mono w m n Hmn). lia.
  - assert (Hmn : (m <= n)%nat).
    { destruct (Nat.lt_ge_cases n m) as [Hnm|Hmn]; [|exact Hmn].
      destruct (Hturns n Hnm) as [_ Hc]. congruence. }
    split; [reflexivity|]. split; [lia|].
    intros ->. assert (m = 0%nat) as -> by lia. reflexivity.
Qed.

Lemma poller_breaks_when_quorum_shows_witness :
  exists r : PollResult,
    poller 31 sample_world 2 "ns" "zookeeper" "local" = Some r
    /\ reason r = ByBreak
    /\ (fetches r <= 3)%nat
    /\ (2%nat = 0%nat -> clock_at_exit r = Z.of_N (latency (sample_world 0%nat))).
Proof.
  apply (poller_breaks_when_quorum_shows
           sample_world 2 "ns" "zookeeper" "local" 2
           (snapshot ["zk-0"; "zk-1"])).
  - vm_compute. reflexivity.
  - reflexivity.
  - split; vm_compute; reflexivity.
Defined.

(** X18 (Membership Poller, what is counted).  A successful fetch ends
    the loop exactly when the number of ready addresses of the snapshot
    is above zero and equal to the target: addresses are counted, not
    distinct or non-empty hostnames, and the list the loop held before
    plays no part. *)
Theorem body_counts_ready_addresses (count : Z) (ns svc dom : string)
  (endpoints : Endpoints) (hosts : list string) :
  snd (body count ns svc dom (Some endpoints) hosts) = Break
  <-> 0 < Z.of_nat (ready_addresses (Subsets endpoints))
      /\ Z.of_nat (ready_addresses (Subsets endpoints)) = count.
Proof.
  rewrite body_break_iff. unfold quorum. split.
  - intros (e & [= <-] & H).
    now rewrite getFqdn_map, length_map, getHostnames_count in H.
  - intros H. exists endpoints. split; [reflexivity|].
    now rewrite getFqdn_map, length_map, getHostnames_count.
Qed.

(** * Further properties of the quorum target *)

Section DecimalRoundTrip.

Local Abbreviation digits := NilEmpty.string_of_uint.

Lemma atoi_digits_acc (d : Decimal.uint) (acc : positive) (z : Z) :
  z = Z.pos acc ->
  strconv.atoi_digits (digits d) z = (Z.pos (Pos.of_uint_acc d acc), None).
Proof.
  revert acc z; induction d; intros acc z ->; cbn [NilEmpty.string_of_uint];
    [reflexivity|..];
    cbn [strconv.atoi_digits]; (apply IHd; vm_compute digit_val; lia).
Qed.

Lemma atoi_digits_value (d : Decimal.uint) :
  strconv.atoi_digits (digits d) 0 = (Z.of_N (Pos.of_uint d), None).
Proof.
  induction d; cbn [NilEmpty.string_of_uint Pos.of_uint];
    [reflexivity | exact IHd |..];
    cbn [strconv.atoi_digits]; (apply atoi_digits_acc; reflexivity).
Qed.

Lemma of_uint_acc_lower (d : Decimal.uint) (acc : positive) :
  (acc <= Pos.of_uint_acc d acc)%positive.
Proof.
  revert acc; induction d; intros acc; cbn [Pos.of_uint_acc]; [lia|..];
    match goal with
    | |- (_ <= Pos.of_uint_acc _ ?a)%positive => specialize (IHd a); lia
    end.
Qed.

Lemma parse_digits_acc (d : Decimal.uint) (acc : positive) (z : Z) :
  z = Z.pos acc ->
  Z.pos (Pos.of_uint_acc d acc) <= strconv.maxUint64 ->
  strconv.parse_digits (digits d) z = (Z.pos (Pos.of_uint_acc d acc), None).
Proof.
  revert acc z; induction d as [|d IHd|d IHd|d IHd|d IHd|d IHd|d IHd|d IHd|d IHd|d IHd|d IHd];
    intros acc z -> Hmax; cbn [NilEmpty.string_of_uint]; [reflexivity|..].
  all: cbn [Pos.of_uint_acc] in Hmax |- *.
  all: match type of Hmax with
       | (Z.pos (Pos.of_uint_acc _ ?a) <= _) =>
           pose proof (of_uint_acc_lower d a) as Hlow
       end.
  all: cbn [strconv.parse_digits]; change (is_digit _) with true; cbv iota.
  all: change (strconv.maxUint64 / 10 + 1) with 1844674407370955162.
  all: match goal with
       | |- context [?a <=? ?b] => destruct (Z.leb_spec a b) as [Hc|Hc]
       end.
  all: try (exfalso; unfold strconv.maxUint64 in Hmax; lia).
  all: match goal with
       | |- context [?a <? ?b] => destruct (Z.ltb_spec a b) as [Hd|Hd]
       end.
  all: try (exfalso; revert Hd; vm_compute digit_val;
            unfold strconv.maxUint64 in *; lia).
  all: apply IHd; [vm_compute digit_val; lia | exact Hmax].
Qed.

Lemma parse_digits_value (d : Decimal.uint) :
  Z.of_N (Pos.of_uint d) <= strconv.maxUint64 ->
  strconv.parse_digits (digits d) 0 = (Z.of_N (Pos.of_uint d), None).
Proof.
  induction d; cbn [NilEmpty.string_of_uint Pos.of_uint]; intros Hmax;
    [reflexivity | exact (IHd Hmax) |..];
    cbn [strconv.parse_digits];
    change (is_digit _) with true; cbv iota;
    change (strconv.maxUint64 / 10 + 1 <=? 0) with false; cbv iota;
    change (strconv.maxUint64 <? _) with false; cbv iota;
    (apply parse_digits_acc; [reflexivity | exact Hmax]).
Qed.

Lemma digits_head (d : Decimal.uint) :
  d <> Decimal.Nil ->
  exists c s', digits d = String c s' /\ is_digit c = true
               /\ Ascii.eqb c "-" = false /\ Ascii.eqb c "+" = false.
Proof.
  destruct d; [contradiction|..]; intros _; cbn [NilEmpty.string_of_uint];
    eexists; eexists; repeat split.
Qed.

Lemma Itoa_pos (p : positive) :
  strconv.Itoa (Z.pos p) = digits (Pos.to_uint p)
  /\ strconv.Itoa (Z.neg p) = String "-" (digits (Pos.to_uint p)).
Proof.
  unfold strconv.Itoa. cbn [Z.to_int NilZero.string_of_int].
  pose proof (Unsigned.to_uint_nonnil p) as Hn. unfold NilZero.string_of_uint.
  destruct (Pos.to_uint p); [contradiction|..]; split; reflexivity.
Qed.

(** [Atoi] reads back what [Itoa] writes, over the whole range of a
    64-bit [int]. *)
Lemma Atoi_Itoa (z : Z) :
  - 2 ^ 63 <= z < 2 ^ 63 -> strconv.Atoi (strconv.Itoa z) = (z, None).
Proof.
  intros Hz. destruct z as [|p|p]; [reflexivity|..].
  - rewrite (proj1 (Itoa_pos p)).
    pose proof (Unsigned.of_to p) as Hv.
    destruct (digits_head (Pos.to_uint p) (Unsigned.to_uint_nonnil p))
      as (c & s' & Hs & Hc & Hm & Hp).
    pose proof (atoi_digits_value (Pos.to_uint p)) as Hfast.
    pose proof (parse_digits_value (Pos.to_uint p)) as Hslow.
    rewrite Hv in Hfast, Hslow. rewrite Hs in *.
    unfold strconv.Atoi, strconv.ParseInt, strconv.ParseUint.
    rewrite Hm, Hp. cbn [orb andb negb]. rewrite Hfast.
    rewrite Hslow by (unfold strconv.maxUint64; cbn [Z.of_N]; lia).
    destruct (_ && _); [reflexivity|].
    destruct (Z.leb_spec (2 ^ 63) (Z.of_N (N.pos p))); [cbn [Z.of_N] in *; lia|].
    reflexivity.
  - rewrite (proj2 (Itoa_pos p)).
    pose proof (Unsigned.of_to p) as Hv.
    destruct (digits_head (Pos.to_uint p) (Unsigned.to_uint_nonnil p))
      as (c & s' & Hs & Hc & Hm & Hp).
    pose proof (atoi_digits_value (Pos.to_uint p)) as Hfast.
    pose proof (parse_digits_value (Pos.to_uint p)) as Hslow.
    rewrite Hv in Hfast, Hslow. rewrite Hs in *.
    unfold strconv.Atoi, strconv.ParseInt, strconv.ParseUint.
    change (Ascii.eqb "-" "-") with true. change (Ascii.eqb "-" "+") with false.
    cbn [orb andb negb]. rewrite Hfast.
    rewrite Hslow by (unfold strconv.maxUint64; cbn [Z.of_N]; lia).
    change (String.length (String c s') <? 1)%nat with false.
    destruct (_ && _); [reflexivity|].
    destruct (Z.ltb_spec (2 ^ 63) (Z.of_N (N.pos p))); [cbn [Z.of_N] in *; lia|].
    reflexivity.
Qed.

End DecimalRoundTrip.

(** X19 (quorum target, decimal value).  A value of
    [MINIMUM_MASTER_NODES] that is the decimal representation of a
    64-bit integer gives that integer as the target: [Atoi] reads back
    what [Itoa] writes. *)
Theorem quorum_target_decimal (environ : string -> option string) (n : Z) :
  - 2 ^ 63 <= n < 2 ^ 63 ->
  environ "MINIMUM_MASTER_NODES" = Some (strconv.Itoa n) ->
  strconv.Atoi (strconv.Itoa n) = (n, None) /\ quorum_target environ = n.
Proof.
  intros Hn He. split; [now apply Atoi_Itoa|].
  unfold quorum_target, Getenv. now rewrite He, (Atoi_Itoa n Hn).
Qed.

Lemma quorum_target_decimal_witness :
  strconv.Atoi (strconv.Itoa 1) = (1, None) /\ quorum_target percent_environ = 1.
Proof.
  apply (quorum_target_decimal percent_environ 1); [lia | reflexivity].
Defined.

(** * Further properties of the whole program *)

Lemma last_fetched_all_failed (w : World) (n : nat) :
  (forall k, reply (w k) = None) -> last_fetched w n = None.
Proof.
  intros Hw; induction n as [|n IH]; [reflexivity|].
  cbn [last_fetched]. now rewrite Hw.
Qed.

Lemma Exists_malformed_fqdn (H : list string) (ns svc dom : string) :
  Exists (fun host => ~ begins_word_dash_digit host) (getFqdn H ns svc dom)
  <-> Exists (fun host => ~ begins_word_dash_digit host) H.
Proof.
  rewrite getFqdn_map, !Exists_exists. split.
  - intros (x & Hin & Hx). apply in_map_iff in Hin as (h & <- & Hin).
    exists h. split; [exact Hin|]. now rewrite <- (begins_fqdn_iff svc ns dom).
  - intros (h & Hin & Hh). exists (fqdn_of svc ns dom h). split.
    + apply in_map_iff. now exists h.
    + now rewrite begins_fqdn_iff.
Qed.

(** X20 (program, panics).  Once the clientset is built, the program
    always gets to the formatter, and it panics there in one case only:
    the service is named [zookeeper] and the snapshot of the last
    successful fetch holds a ready address whose hostname does not begin
    with a word, a dash and a digit.  In every other case it returns. *)
Theorem main_panics_iff (environ : string -> option string) (w : World) :
  exists (r : PollResult) (out : string) (res : outcome unit),
    poller 31 w (quorum_target environ)
           (Getenv environ "ENDPOINT_NAMESPACE_NAME")
           (Getenv environ "ENDPOINT_SERVICE_NAME")
           (Getenv environ "ENDPOINT_DOMAIN_NAME") = Some r
    /\ main 31 environ w = Some (out, res)
    /\ ((exists msg, res = Panic msg)
        <-> Getenv environ "ENDPOINT_SERVICE_NAME" = "zookeeper"
            /\ exists endpoints,
                 last_fetched w (fetches r) = Some endpoints
                 /\ Exists (fun host => ~ begins_word_dash_digit host)
                           (getHostnames (Subsets endpoints))).
Proof.
  destruct (poller_total w (quorum_target environ)
              (Getenv environ "ENDPOINT_NAMESPACE_NAME")
              (Getenv environ "ENDPOINT_SERVICE_NAME")
              (Getenv environ "ENDPOINT_DOMAIN_NAME")) as [r H].
  pose proof (poller_hosts_at_exit _ _ _ _ _ _ _ H) as Hh.
  exists r, (fst (formatOutput (hosts_at_exit r)
                               (Getenv environ "ENDPOINT_SERVICE_NAME"))),
    (snd (formatOutput (hosts_at_exit r) (Getenv environ "ENDPOINT_SERVICE_NAME"))).
  split; [exact H|]. split.
  - unfold main. rewrite H. now destruct (formatOutput _ _).
  - rewrite formatOutput_panic_cases, Hh.
    destruct (last_fetched w (fetches r)) as [endpoints|].
    + rewrite Exists_malformed_fqdn. split.
      * intros [Hs HE]. split; [exact Hs|]. now exists endpoints.
      * intros [Hs (e & [= <-] & HE)]. now split.
    + split.
      * intros [_ HE]. inversion HE.
      * intros [_ (e & He & _)]. discriminate He.
Qed.

(** X21 (program, no fetch succeeds).  When every fetch fails, the
    program still ends normally after the deadline, with the empty list:
    it writes nothing, except under the service name [elasticsearch],
    where it writes the line of an empty host list. *)
Theorem main_when_every_fetch_fails (environ : string -> option string)
  (w : World) :
  (forall k, reply (w k) = None) ->
  main 31 environ w
  = Some (if String.eqb (Getenv environ "ENDPOINT_SERVICE_NAME") "elasticsearch"
          then "discovery.zen.ping.unicast.hosts: []" ++ nl
          else "",
          Ret tt).
Proof.
  intros Hw. unfold main.
  destruct (poller_total w (quorum_target environ)
              (Getenv environ "ENDPOINT_NAMESPACE_NAME")
              (Getenv environ "ENDPOINT_SERVICE_NAME")
              (Getenv environ "ENDPOINT_DOMAIN_NAME")) as [r H].
  rewrite H, (poller_hosts_at_exit _ _ _ _ _ _ _ H),
    (last_fetched_all_failed w _ Hw).
  unfold formatOutput.
  destruct (String.eqb _ "zookeeper") eqn:Ez.
  - apply String.eqb_eq in Ez. rewrite Ez. reflexivity.
  - destruct (String.eqb _ "elasticsearch"); reflexivity.
Qed.

Lemma main_when_every_fetch_fails_witness :
  main 31 empty_environ failing_world = Some ("", Ret tt).
Proof.
  apply (main_when_every_fetch_fails empty_environ failing_world).
  intros k. reflexivity.
Defined.

(** X22 (program, quorum at the first fetch).  When the first fetch
    shows as many ready addresses as the target, which is above zero,
    the program formats the FQDNs of that snapshot, under the service
    name as the format, without fetching again. *)
Theorem main_quorum_at_first_fetch (environ : string -> option string)
  (w : World) (endpoints : Endpoints) :
  reply (w 0%nat) = Some endpoints ->
  0 < quorum_target environ ->
  Z.of_nat (ready_addresses (Subsets endpoints)) = quorum_target environ ->
  main 31 environ w
  = Some (formatOutput
            (getFqdn (getHostnames (Subsets endpoints))
                     (Getenv environ "ENDPOINT_NAMESPACE_NAME")
                     (Getenv environ "ENDPOINT_SERVICE_NAME")
                     (Getenv environ "ENDPOINT_DOMAIN_NAME"))
            (Getenv environ "ENDPOINT_SERVICE_NAME"))
  /\ exists r,
       poller 31 w (quorum_target environ)
              (Getenv environ "ENDPOINT_NAMESPACE_NAME")
              (Getenv environ "ENDPOINT_SERVICE_NAME")
              (Getenv environ "ENDPOINT_DOMAIN_NAME") = Some r
       /\ fetches r = 1%nat.
Proof.
  intros Hrep Hpos Hcount.
  assert (Hq : snd (body (quorum_target environ)
                         (Getenv environ "ENDPOINT_NAMESPACE_NAME")
                         (Getenv environ "ENDPOINT_SERVICE_NAME")
                         (Getenv environ "ENDPOINT_DOMAIN_NAME")
                         (Some endpoints) []) = Break).
  { apply body_break_iff. exists endpoints. split; [reflexivity|].
    unfold quorum. rewrite getFqdn_map, length_map, getHostnames_count. lia. }
  unfold main, poller. cbn [poll]. rewrite Since_lt_deadline.
  change (0 <? deadline) with true. cbv iota. rewrite Hrep.
  destruct (body _ _ _ _ (Some endpoints) []) as [hosts' c] eqn:B.
  cbn [snd] in Hq. subst c.
  assert (Hh : hosts' = getFqdn (getHostnames (Subsets endpoints))
                          (Getenv environ "ENDPOINT_NAMESPACE_NAME")
                          (Getenv environ "ENDPOINT_SERVICE_NAME")
                          (Getenv environ "ENDPOINT_DOMAIN_NAME")).
  { unfold body in B. destruct (_ && _); now injection B as <-. }
  subst hosts'. split; [reflexivity|]. eexists. split; reflexivity.
Qed.

Lemma main_quorum_at_first_fetch_witness :
  main 31 percent_environ one_member_world
  = Some (formatOutput
            (getFqdn (getHostnames (Subsets (snapshot ["web-0"])))
                     (Getenv percent_environ "ENDPOINT_NAMESPACE_NAME")
                     (Getenv percent_environ "ENDPOINT_SERVICE_NAME")
                     (Getenv percent_environ "ENDPOINT_DOMAIN_NAME"))
            (Getenv percent_environ "ENDPOINT_SERVICE_NAME")).
Proof.
  apply (main_quorum_at_first_fetch percent_environ one_member_world
           (snapshot ["web-0"])); reflexivity.
Defined.

Lemma Getenv_empty_iff (environ : string -> option string) (key : string) :
  Getenv environ key = "" <-> environ key = None \/ environ key = Some "".
Proof.
  unfold Getenv. destruct (environ key) as [v|]; split.
  - intros ->. now right.
  - intros [H|H]; [discriminate H | now injection H].
  - now left.
  - reflexivity.
Qed.

(** X23 (home directory).  [homeDir] is empty exactly when neither
    [HOME] nor [USERPROFILE] has a value that is not empty; a [HOME] set
    to the empty string counts as unset, and a [HOME] that is not empty
    wins over [USERPROFILE]. *)
Theorem homeDir_empty_iff (environ : string -> option string) :
  (homeDir environ = ""
   <-> (environ "HOME" = None \/ environ "HOME" = Some "")
       /\ (environ "USERPROFILE" = None \/ environ "USERPROFILE" = Some ""))
  /\ (environ "HOME" = None \/ environ "HOME" = Some ""
      \/ environ "HOME" = Some (homeDir environ)).
Proof.
  rewrite <- !Getenv_empty_iff. unfold homeDir.
  destruct (String.eqb_spec (Getenv environ "HOME") "") as [E|E]; cbn [negb].
  - rewrite E. split.
    + split; [now split | now intros [_ H]].
    + apply Getenv_empty_iff in E. destruct E; auto.
  - split.
    + split; [intros H; contradiction | intros [H _]; contradiction].
    + right. right. unfold Getenv in *.
      destruct (environ "HOME"); [reflexivity | contradiction].
Qed.

(** * The quorum target that cannot be parsed *)






(** * The zookeeper format on malformed hostnames *)

Lemma zookeeper_line_not_empty (host : string) :
  begins_word_dash_digit host -> zookeeper_line host <> "".
Proof.
  intros Hh. destruct (getNodeIndex_begins host Hh) as [idx Hidx].
  unfold zookeeper_line. rewrite Hidx. discriminate.
Qed.

(** C9 as the claim states it fails: with a well-formed member before
    the malformed one, the program has written a line when it panics. *)
Lemma zookeeper_format_writes_before_panic :
  formatOutput (getFqdn ["zk-0"; ""] "ns" "zookeeper" "local") "zookeeper"
  = ("server1:zk-0.zookeeper.ns.local:2888:3888" ++ nl,
     Panic "runtime error: index out of range")
  /\ ~ (exists msg,
          formatOutput (getFqdn ["zk-0"; ""] "ns" "zookeeper" "local") "zookeeper"
          = ("", Panic msg)).
Proof.
  split; [reflexivity|]. intros [msg H]. discriminate H.
Qed.

(** C9 (zookeeper format on malformed hostnames), amended.  The
    formatter applies [getNodeIndex] to the whole FQDN of each member.
    When some member has a hostname that is empty or does not begin with
    a word, a dash and a digit, the FQDN of the first such member yields
    no submatch and the call panics there.  Standard output then holds
    the lines of the members before it, each written in full, and no
    line of it or of a later member: the program writes nothing exactly
    when the first member is the malformed one. *)
Theorem zookeeper_format_panics_on_malformed_hostname
  (H : list string) (ns svc dom : string) :
  (exists h, In h H /\ (h = "" \/ ~ begins_word_dash_digit h)) ->
  exists (good : list string) (h : string) (rest : list string),
    H = (good ++ h :: rest)%list
    /\ Forall begins_word_dash_digit good
    /\ ~ begins_word_dash_digit h
    /\ regexp.FindStringSubmatch (fqdn_of svc ns dom h) = []
    /\ getNodeIndex (fqdn_of svc ns dom h)
       = Panic "runtime error: index out of range"
    /\ formatOutput (getFqdn good ns svc dom) "zookeeper"
       = (fold_right String.append ""
            (map zookeeper_line (getFqdn good ns svc dom)), Ret tt)
    /\ formatOutput (getFqdn H ns svc dom) "zookeeper"
       = (fold_right String.append ""
            (map zookeeper_line (getFqdn good ns svc dom)),
          Panic "runtime error: index out of range")
    /\ (fst (formatOutput (getFqdn H ns svc dom) "zookeeper") = ""
        <-> good = []).
Proof.
  intros (h0 & Hin & Hbad).
  assert (Hbad' : ~ begins_word_dash_digit h0)
    by (destruct Hbad as [->|Hbad]; [apply empty_hostname_malformed | exact Hbad]).
  destruct (first_malformed H) as (good & h & rest & -> & HF & Hh);
    [now exists h0|].
  assert (Hfq : ~ begins_word_dash_digit (fqdn_of svc ns dom h))
    by now rewrite begins_fqdn_iff.
  assert (HF' : Forall begins_word_dash_digit (map (fqdn_of svc ns dom) good)).
  { apply Forall_map. eapply Forall_impl; [|exact HF].
    intros a Ha. now apply begins_fqdn_iff. }
  assert (Hgood : formatOutput (getFqdn good ns svc dom) "zookeeper"
                  = (fold_right String.append ""
                       (map zookeeper_line (getFqdn good ns svc dom)), Ret tt)).
  { rewrite getFqdn_map. unfold formatOutput. simpl String.eqb. cbv iota.
    now rewrite (zookeeper_lines_all_good _ "" HF'). }
  assert (Hall : formatOutput (getFqdn (good ++ h :: rest) ns svc dom) "zookeeper"
                 = (fold_right String.append ""
                      (map zookeeper_line (getFqdn good ns svc dom)),
                    Panic "runtime error: index out of range")).
  { destruct (zookeeper_lines_good _ (map (fqdn_of svc ns dom) (h :: rest)) "" HF')
      as (out & Hout & Happ).
    rewrite (zookeeper_lines_all_good _ "" HF') in Hout. injection Hout as <-.
    rewrite !getFqdn_map, map_app. unfold formatOutput. simpl String.eqb.
    cbv iota. rewrite Happ. now apply zookeeper_lines_bad. }
  exists good, h, rest. repeat split; auto.
  - now apply FindStringSubmatch_no_match.
  - now apply getNodeIndex_no_match.
  - rewrite Hall. cbn [fst]. destruct good as [|a good]; [reflexivity|].
    rewrite getFqdn_map. cbn [map fold_right]. intros E. exfalso.
    inversion HF' as [|x l Hx Hl]; subst.
    apply (zookeeper_line_not_empty _ Hx).
    destruct (zookeeper_line (fqdn_of svc ns dom a)); [reflexivity | discriminate E].
  - intros ->. rewrite Hall. reflexivity.
Qed.

Lemma zookeeper_format_panics_on_malformed_hostname_witness :
  exists (good : list string) (h : string) (rest : list string),
    ["zk-0"; ""] = (good ++ h :: rest)%list
    /\ Forall begins_word_dash_digit good
    /\ ~ begins_word_dash_digit h
    /\ regexp.FindStringSubmatch (fqdn_of "zookeeper" "ns" "local" h) = []
    /\ getNodeIndex (fqdn_of "zookeeper" "ns" "local" h)
       = Panic "runtime error: index out of range"
    /\ formatOutput (getFqdn good "ns" "zookeeper" "local") "zookeeper"
       = (fold_right String.append ""
            (map zookeeper_line (getFqdn good "ns" "zookeeper" "local")), Ret tt)
    /\ formatOutput (getFqdn ["zk-0"; ""] "ns" "zookeeper" "local") "zookeeper"
       = (fold_right String.append ""
            (map zookeeper_line (getFqdn good "ns" "zookeeper" "local")),
          Panic "runtime error: index out of range")
    /\ (fst (formatOutput (getFqdn ["zk-0"; ""] "ns" "zookeeper" "local")
                          "zookeeper") = ""
        <-> good = []).
Proof.
  apply (zookeeper_format_panics_on_malformed_hostname
           ["zk-0"; ""] "ns" "zookeeper" "local").
  exists "". split; [right; left; reflexivity | left; reflexivity].
Defined.
